(** * open_csv: a shallow embedding of [src/open_csv.c]

    The C library reads the file at the fixed path [CSV_PATH] twice: once in
    [getDFsize] to count rows and columns, once in [loadCsv] to fill the
    [csvData_t] structure.  The embedding below follows the C text function
    by function.

    - A file is the list of its bytes; [fopen] fails exactly when there is
      no such file ([None]).
    - [fgets], [strtok], [strncat], [strncpy], [isalnum] and [atof] are
      library functions; they are modelled after the C standard.
    - A block obtained from [malloc] is the list of its bytes.  What a
      fresh block contains is not decided by the program: it is a parameter
      ([heap]), indexed by the order of the allocations.
    - [malloc] is taken to succeed, and a pointer to have 8 bytes.
    - Behaviour the C standard leaves undefined (a null pointer
      dereference, an access outside a block, a string without terminator)
      is the outcome [Undef].  [Undef] says that a run has reached such a
      point, and no more: what an implementation does from there on is
      not modelled, and it may well go on and hand a structure back.  One
      overrun is not an [Undef]: the 8 bytes [strncpy] writes into the
      2-byte block of [delim] are kept as written (see [createDataFrame]).
    - The [int] counters of the rows and columns are integers of [Z];
      they are the values of the C counters as long as these do not
      overflow, which is so for a file of at most [INT_MAX] bytes.
    - A [double] or [float] is the number it stands for; [atof] rounds to
      the nearest [double], and storing a cell rounds to the nearest
      [float]. *)

From Stdlib Require Import Ascii String List ZArith QArith Lia Bool Arith.
Import ListNotations.

Local Open Scope nat_scope.

(** ** Bytes and C strings *)

Definition byte := ascii.
Definition bytes := list ascii.

Definition NUL : ascii := Ascii.zero.
Definition LF : ascii := ascii_of_nat 10.

Definition str (s : string) : bytes := list_ascii_of_string s.

Definition code (c : ascii) : nat := nat_of_ascii c.

Definition within (lo hi : nat) (c : ascii) : bool :=
  (lo <=? code c) && (code c <=? hi).

(** [isalnum] in the "C" locale: decimal digits and the 52 letters. *)
Definition isdigit (c : ascii) : bool := within 48 57 c.
Definition isupper (c : ascii) : bool := within 65 90 c.
Definition islower (c : ascii) : bool := within 97 122 c.
Definition isalnum (c : ascii) : bool := isdigit c || isupper c || islower c.

(** [isspace] in the "C" locale: space, \t, \n, \v, \f, \r. *)
Definition isspace (c : ascii) : bool := (code c =? 32) || within 9 13 c.

Definition is_nul (c : ascii) : bool := Ascii.eqb c NUL.

(** The string a [char *] denotes when it points to the first byte of [b]:
    the bytes before the first NUL.  [cstr] is used where the terminator is
    known to be there (a buffer just filled by [fgets]). *)
Fixpoint cstr (b : bytes) : bytes :=
  match b with
  | [] => []
  | c :: b' => if is_nul c then [] else c :: cstr b'
  end.

(** The same for a heap block, where the terminator may be missing:
    [None] when no NUL occurs inside the block. *)
Fixpoint block_string (b : bytes) : option bytes :=
  match b with
  | [] => None
  | c :: b' =>
      if is_nul c then Some []
      else match block_string b' with
           | Some s => Some (c :: s)
           | None => None
           end
  end.

(** [p[i] = c] inside a block of [length b] bytes; [None] outside of it. *)
Fixpoint store {A : Type} (b : list A) (i : nat) (c : A) : option (list A) :=
  match b, i with
  | [], _ => None
  | _ :: b', O => Some (c :: b')
  | x :: b', S i' =>
      match store b' i' c with
      | Some r => Some (x :: r)
      | None => None
      end
  end.

(** ** Outcomes *)

Inductive fault : Type :=
| NullDereference      (* [dfSize[0]] with [dfSize == NULL] *)
| OutOfBounds          (* a write past the end of a block *)
| MissingTerminator    (* a string function runs off the end of a block *)
| IndeterminateBuffer. (* [strtok] on a stack buffer [fgets] did not fill *)

Inductive outcome (A : Type) : Type :=
| Ok (a : A)
| Undef (f : fault)
| OutOfFuel.

Arguments Ok {A} a.
Arguments Undef {A} f.
Arguments OutOfFuel {A}.

Definition bind {A B : Type} (m : outcome A) (k : A -> outcome B) : outcome B :=
  match m with
  | Ok a => k a
  | Undef f => Undef f
  | OutOfFuel => OutOfFuel
  end.

Notation "x <- m ;; k" := (bind m (fun x => k))
  (at level 61, m at next level, right associativity).

Definition defined {A : Type} (f : fault) (o : option A) : outcome A :=
  match o with
  | Some a => Ok a
  | None => Undef f
  end.

(** ** The C library: [fgets] *)

(** [fgets_chars n s]: at most [n] characters of the stream [s], stopping
    after a newline; the second component is the rest of the stream. *)
Fixpoint fgets_chars (n : nat) (s : bytes) : bytes * bytes :=
  match n, s with
  | O, _ => ([], s)
  | _, [] => ([], [])
  | S n', c :: s' =>
      if Ascii.eqb c LF then ([c], s')
      else let (l, r) := fgets_chars n' s' in (c :: l, r)
  end.

(** [fgets(buffer, size, stream)]: [None] is the NULL result at end of
    file; otherwise the characters stored in the buffer (a NUL follows
    them) and the rest of the stream. *)
Definition fgets (size : nat) (stream : bytes) : option (bytes * bytes) :=
  match stream with
  | [] => None
  | _ => Some (fgets_chars (size - 1) stream)
  end.

Definition BUFFER_SIZE : nat := 1024.

(** ** The C library: [strtok] *)

Definition is_delim (delim : bytes) (c : ascii) : bool :=
  existsb (Ascii.eqb c) delim.

(** [s + strspn(s, delim)] *)
Fixpoint skip_delims (delim : bytes) (s : bytes) : bytes :=
  match s with
  | [] => []
  | c :: s' => if is_delim delim c then skip_delims delim s' else s
  end.

(** The token that starts at [s], and where the scan resumes: just after
    the delimiter byte that ended the token, or at the end of the string. *)
Fixpoint span_token (delim : bytes) (s : bytes) : bytes * bytes :=
  match s with
  | [] => ([], [])
  | c :: s' =>
      if is_delim delim c then ([], s')
      else let (t, r) := span_token delim s' in (c :: t, r)
  end.

(** One call of [strtok]: [s] is the string the scan starts from (the
    first argument, or the saved pointer when the first argument is NULL).
    The result is the token ([None] for NULL) and the new saved pointer.
    Every byte of [delim] is a separator on its own. *)
Definition strtok (s : bytes) (delim : bytes) : option bytes * bytes :=
  match skip_delims delim s with
  | [] => (None, [])
  | t => let (tok, rest) := span_token delim t in (Some tok, rest)
  end.

(** ** The constants of [open_csv.h] *)

Definition CSV_DELIM : bytes := str ", ".

(** ** [getDFsize] *)

(** The body of [while(tokens) { tokens = strtok(NULL, CSV_DELIM); dfCols++; }] *)
Fixpoint count_tokens (fuel : nat) (tokens : option bytes) (save : bytes) (dfCols : Z)
  : option Z :=
  match fuel with
  | O => None
  | S fuel' =>
      match tokens with
      | None => Some dfCols
      | Some _ =>
          let (tokens', save') := strtok save CSV_DELIM in
          count_tokens fuel' tokens' save' (dfCols + 1)%Z
      end
  end.

Record scan_state : Type := mkScan {
  skipFirstRow : Z;
  lock : bool;
  dfRows : Z;
  dfCols : Z
}.

(** One iteration of the [while(fgets(...))] loop of [getDFsize], on the
    characters [fgets] stored in [buffer]. *)
Definition scan_line (buffer : bytes) (st : scan_state) : option scan_state :=
  let (tokens, save) := strtok (cstr buffer) CSV_DELIM in
  if (skipFirstRow st =? 0)%Z then
    Some (mkScan 1 (lock st) (dfRows st) (dfCols st))
  else if negb (lock st) then
    match count_tokens (S (length buffer)) tokens save (dfCols st) with
    | Some cols => Some (mkScan (skipFirstRow st) true (dfRows st + 1)%Z cols)
    | None => None
    end
  else
    Some (mkScan (skipFirstRow st) (lock st) (dfRows st + 1)%Z (dfCols st)).

Fixpoint scan_loop (fuel : nat) (stream : bytes) (st : scan_state) : option scan_state :=
  match fuel with
  | O => None
  | S fuel' =>
      match fgets BUFFER_SIZE stream with
      | None => Some st
      | Some (buffer, stream') =>
          match scan_line buffer st with
          | Some st' => scan_loop fuel' stream' st'
          | None => None
          end
      end
  end.

(** An open stream is what remains to be read; a [FILE *] is NULL or a
    stream.  The file system maps a path to the content of the file, or to
    nothing when [fopen] cannot open it. *)
Definition FILE : Type := bytes.
Definition file_system : Type := string -> option bytes.

Definition CSV_PATH : string := "../data/training_data.csv".

Definition fopen (fs : file_system) (path : string) : option FILE := fs path.

(** [getDFsize]: the parameter [filePtr] is assigned the result of [fopen]
    before it is read.  [Ok None] is the NULL result; [Ok (Some (r, c))] is
    the array [{r, c}].  The counters are C [int]s; the model counts in
    [Z], which agrees with C for files of fewer than 2^31 lines. *)
Definition getDFsize (filePtr : option FILE) (fs : file_system)
  : outcome (option (Z * Z)) :=
  let filePtr := fopen fs CSV_PATH in
  match filePtr with
  | None => Ok None
  | Some stream =>
      match scan_loop (S (length stream)) stream (mkScan 0 false 0 0) with
      | Some st => Ok (Some (dfRows st, dfCols st))
      | None => OutOfFuel
      end
  end.

(** ** The C library: [atof]

    [atof(s)] is [strtod(s, NULL)]: white space is skipped, then the longest
    prefix that has the form of a number is converted to the nearest
    [double]; when there is none the result is zero.  A cell is a [float]:
    the assignment [df->dataFrame[row][col] = atof(tokens)] rounds the
    [double] once more.  A [number] is the value of a floating-point
    datum: the rational it stands for, one of the two zeros, an infinity or
    a NaN (whose sign and payload are not kept). *)

Inductive number : Type :=
| Finite (q : Q)
| NegativeZero
| Infinity (negative : bool)
| NotANumber.

Definition zero_value : number := Finite 0.

Definition digit_value (c : ascii) : Z := Z.of_nat (code c - 48).

Definition isxdigit (c : ascii) : bool :=
  isdigit c || within 65 70 c || within 97 102 c.

Definition xdigit_value (c : ascii) : Z :=
  if isdigit c then Z.of_nat (code c - 48)
  else if within 65 70 c then Z.of_nat (code c - 55)
  else Z.of_nat (code c - 87).

(** The longest run of digits in base [base] at the start of [s]:
    its value on top of [acc], its length, and what follows. *)
Fixpoint read_digits (isd : ascii -> bool) (val : ascii -> Z) (base : Z)
  (s : bytes) (acc : Z) (n : nat) : Z * nat * bytes :=
  match s with
  | c :: s' =>
      if isd c then read_digits isd val base s' (acc * base + val c)%Z (S n)
      else (acc, n, s)
  | [] => (acc, n, s)
  end.

Definition read_sign (s : bytes) : bool * bytes :=
  match s with
  | c :: s' =>
      if Ascii.eqb c "-" then (true, s')
      else if Ascii.eqb c "+" then (false, s')
      else (false, s)
  | [] => (false, s)
  end.

(** Digits, an optional point, digits: the integer the digits form without
    the point, the number of digits in all, the number of digits after the
    point. *)
Definition read_mantissa (isd : ascii -> bool) (val : ascii -> Z) (base : Z)
  (s : bytes) : Z * nat * nat * bytes :=
  let '(m1, n1, r1) := read_digits isd val base s 0%Z 0 in
  match r1 with
  | c :: r2 =>
      if Ascii.eqb c "." then
        let '(m2, n2, r3) := read_digits isd val base r2 m1 0 in
        (m2, n1 + n2, n2, r3)
      else (m1, n1, 0, r1)
  | [] => (m1, n1, 0, r1)
  end.

(** An exponent part introduced by one of the two letters [lo], [up]; zero
    when there is none or when no digit follows the letter and the sign. *)
Definition read_exponent (lo up : ascii) (s : bytes) : Z :=
  match s with
  | c :: s' =>
      if Ascii.eqb c lo || Ascii.eqb c up then
        let (neg, r) := read_sign s' in
        let '(e, n, _) := read_digits isdigit digit_value 10 r 0%Z 0 in
        if n =? 0 then 0%Z else if neg then (- e)%Z else e
      else 0%Z
  | [] => 0%Z
  end.

Definition scaled (m : Z) (base : Q) (e : Z) : Q :=
  Qred (inject_Z m * Qpower base e).

Definition read_decimal (s : bytes) : option Q :=
  let '(m, n, nfrac, r) := read_mantissa isdigit digit_value 10 s in
  if n =? 0 then None
  else Some (scaled m 10 (read_exponent "e" "E" r - Z.of_nat nfrac)).

Definition read_hexadecimal (s : bytes) : option Q :=
  match s with
  | z :: x :: s' =>
      if Ascii.eqb z "0" && (Ascii.eqb x "x" || Ascii.eqb x "X") then
        let '(m, n, nfrac, r) := read_mantissa isxdigit xdigit_value 16 s' in
        if n =? 0 then None
        else Some (scaled m 2 (read_exponent "p" "P" r - 4 * Z.of_nat nfrac))
      else None
  | _ => None
  end.

Definition lower (c : ascii) : ascii :=
  if isupper c then ascii_of_nat (code c + 32) else c.

Fixpoint has_prefix_nocase (p s : bytes) : bool :=
  match p, s with
  | [], _ => true
  | _ :: _, [] => false
  | a :: p', b :: s' => Ascii.eqb a (lower b) && has_prefix_nocase p' s'
  end.

Fixpoint skip_space (s : bytes) : bytes :=
  match s with
  | c :: s' => if isspace c then skip_space s' else s
  | [] => []
  end.

Definition negate (neg : bool) (q : Q) : Q := if neg then Qred (- q) else q.

(** The number with the sign [neg] and the magnitude [q]. *)
Definition signed (neg : bool) (q : Q) : number :=
  if neg then (if Qnum q =? 0 then NegativeZero else Finite (negate neg q))%Z
  else Finite q.

(** The value of the subject sequence of [strtod], before any rounding. *)
Definition strtod_value (s : bytes) : number :=
  let (neg, r) := read_sign (skip_space s) in
  if has_prefix_nocase (str "inf") r then Infinity neg
  else if has_prefix_nocase (str "nan") r then NotANumber
  else match read_hexadecimal r with
       | Some q => signed neg q
       | None =>
           match read_decimal r with
           | Some q => signed neg q
           | None => zero_value
           end
       end.

(** *** Rounding to a binary format

    A format has [precision] bits of significand; its least positive value
    is [2 ^ least], and its values are below [2 ^ bound]. *)
Record format : Type := mkFormat {
  precision : Z;
  least : Z;
  bound : Z
}.

Definition binary64 : format := mkFormat 53 (-1074) 1024.
Definition binary32 : format := mkFormat 24 (-149) 128.

(** [floor (log2 (n / d))] for positive [n] and [d]. *)
Definition floor_log2 (n d : Z) : Z :=
  let k := (Z.log2 n - Z.log2 d)%Z in
  if (0 <=? k)%Z then (if (d * 2 ^ k <=? n)%Z then k else k - 1)%Z
  else (if (d <=? n * 2 ^ (- k))%Z then k else k - 1)%Z.

(** The integer nearest to [n / d], the even one of two that are equally
    near, for [0 <= n] and [0 < d]. *)
Definition nearest_even (n d : Z) : Z :=
  let q := (n / d)%Z in
  match (2 * (n mod d) ?= d)%Z with
  | Lt => q
  | Gt => (q + 1)%Z
  | Eq => if Z.even q then q else (q + 1)%Z
  end.

(** Round to nearest, ties to even, the positive rational [n / d]: the
    result is [m * 2 ^ e], an infinity when that is out of the format. *)
Definition round_magnitude (f : format) (neg : bool) (n d : Z) : number :=
  let e := Z.max (floor_log2 n d - (precision f - 1)) (least f) in
  let m := if (0 <=? e)%Z then nearest_even n (d * 2 ^ e)
           else nearest_even (n * 2 ^ (- e)) d in
  if (m =? 0)%Z then (if neg then NegativeZero else zero_value)
  else if (bound f <=? Z.log2 m + e)%Z then Infinity neg
  else Finite (scaled (if neg then (- m)%Z else m) 2 e).

Definition round_to (f : format) (x : number) : number :=
  match x with
  | Finite q =>
      match Qnum q with
      | Z0 => zero_value
      | Zpos n => round_magnitude f false (Zpos n) (Zpos (Qden q))
      | Zneg n => round_magnitude f true (Zpos n) (Zpos (Qden q))
      end
  | _ => x
  end.

Definition to_double (x : number) : number := round_to binary64 x.
Definition to_float (x : number) : number := round_to binary32 x.

(** [atof(s)]: a [double]. *)
Definition atof (s : bytes) : number := to_double (strtod_value s).

(** ** The heap *)

(** [h k i] is the byte found at offset [i] of the block returned by the
    [k]-th call of [malloc] (counted from 0 in one run of [loadCsv]). *)
Definition heap : Type := nat -> nat -> ascii.

Definition malloc (h : heap) (k : nat) (size : nat) : bytes :=
  map (h k) (seq 0 size).

Definition zero_heap : heap := fun _ _ => NUL.

Definition zero_filled (h : heap) : Prop := forall k i, h k i = NUL.

(** ** [trimToken] *)

(** The [while] loop of [trimToken]; [token] is what is left of the
    argument string, [loop] having advanced to it. *)
Fixpoint trim_loop (token : bytes) (trimmedToken : bytes) (innerLoop : nat)
  : outcome bytes :=
  match token with
  | [] => Ok trimmedToken
  | c :: token' =>
      if negb (isalnum c) then trim_loop token' trimmedToken innerLoop
      else
        b <- defined OutOfBounds (store trimmedToken innerLoop c) ;;
        trim_loop token' b (S innerLoop)
  end.

(** [trimToken(token)], where [token] is the string the argument points
    to, and the block comes from the [k]-th allocation.  The result is the
    whole block of [strlen(token) + 1] bytes. *)
Definition trimToken (h : heap) (k : nat) (token : bytes) : outcome bytes :=
  b <- defined OutOfBounds (store (malloc h k (length token + 1)) 0 NUL) ;;
  trim_loop token b 0.

(** ** [createDataFrame] *)

(** [strncpy(dest, src, n)] writes exactly [n] bytes: the string, then
    NULs; no NUL at all when the string has [n] characters or more. *)
Fixpoint strncpy (src : bytes) (n : nat) : bytes :=
  match n with
  | O => []
  | S n' =>
      match src with
      | [] => NUL :: strncpy [] n'
      | c :: src' => c :: strncpy src' n'
      end
  end.

Definition SIZEOF_CHAR_PTR : nat := 8.
Definition DELIM_REQUEST : nat := 2.

(** [csvData_t].  The field [DFSize] is never assigned and never read; it
    is left out.  [dataFrame] is [None] until [loadCsv] assigns it; a cell
    is [None] until a value is stored in it. *)
Record csvData_t : Type := mkData {
  delim : bytes;
  rows : Z;
  cols : Z;
  params : bytes;
  dataFrame : option (list (list (option number)))
}.

(** Allocations of one run, in program order: 0 is [retVal] of
    [getDFsize], 1 the structure, 2 [delim], 3 [params]. *)
Definition PARAMS_ALLOC : nat := 3.

(** [createDataFrame].  [delim] is given the [SIZEOF_CHAR_PTR] bytes that
    [strncpy] writes, although [DELIM_REQUEST] bytes were asked for: the
    model keeps all of them, as an allocator does that rounds a small
    request up to its alignment. *)
Definition createDataFrame (filePtr : option FILE) (h : heap) (fs : file_system)
  : outcome csvData_t :=
  dfSize <- getDFsize filePtr fs ;;
  match dfSize with
  | None => Undef NullDereference
  | Some (r, c) =>
      p <- defined OutOfBounds
             (store (malloc h PARAMS_ALLOC (Z.to_nat c + 1)) (Z.to_nat c) NUL) ;;
      Ok (mkData (strncpy CSV_DELIM SIZEOF_CHAR_PTR) r c p None)
  end.

(** ** [loadCsv] *)

(** [p[i], p[i+1], ... = s] inside the block [b]. *)
Fixpoint write_bytes (b : bytes) (i : nat) (s : bytes) : outcome bytes :=
  match s with
  | [] => Ok b
  | c :: s' =>
      b' <- defined OutOfBounds (store b i c) ;;
      write_bytes b' (S i) s'
  end.

(** [strncat(dest, src, n)]: at most [n] characters of [src], then a NUL,
    are written from the terminator of [dest] on. *)
Definition strncat (dest : bytes) (src : bytes) (n : nat) : outcome bytes :=
  d <- defined MissingTerminator (block_string dest) ;;
  write_bytes dest (length d) (firstn n src ++ [NUL]).

(** The [while(tokens)] loop over the first line.  [k] counts the
    allocations made so far.  The second [trimToken] is the argument of
    [printf], which reads it as a string; what is printed is not part of
    the model. *)
Fixpoint header_loop (fuel : nat) (h : heap) (k : nat) (dlm : bytes)
  (tokens : option bytes) (save : bytes) (params : bytes) : outcome bytes :=
  match fuel with
  | O => OutOfFuel
  | S fuel' =>
      match tokens with
      | None => Ok params
      | Some token =>
          blk <- trimToken h k token ;;
          label <- defined MissingTerminator (block_string blk) ;;
          params' <- strncat params label (length label) ;;
          blk2 <- trimToken h (S k) token ;;
          _ <- defined MissingTerminator (block_string blk2) ;;
          let (tokens', save') := strtok save dlm in
          header_loop fuel' h (S (S k)) dlm tokens' save' params'
      end
  end.

(** [df->dataFrame[row][col] = v] *)
Definition store_cell (frame : list (list (option number))) (row col : nat) (v : number)
  : outcome (list (list (option number))) :=
  match nth_error frame row with
  | None => Undef OutOfBounds
  | Some r =>
      r' <- defined OutOfBounds (store r col (Some v)) ;;
      defined OutOfBounds (store frame row r')
  end.

(** The inner [while(tokens)] loop of the data part. *)
Fixpoint row_loop (fuel : nat) (dlm : bytes) (tokens : option bytes) (save : bytes)
  (row col : nat) (frame : list (list (option number))) : outcome (list (list (option number))) :=
  match fuel with
  | O => OutOfFuel
  | S fuel' =>
      match tokens with
      | None => Ok frame
      | Some token =>
          frame' <- store_cell frame row col (to_float (atof token)) ;;
          let (tokens', save') := strtok save dlm in
          row_loop fuel' dlm tokens' save' row (S col) frame'
      end
  end.

(** The outer [while(fgets(...))] loop of the data part. *)
Fixpoint data_loop (fuel : nat) (dlm : bytes) (stream : FILE) (row : nat)
  (frame : list (list (option number))) : outcome (list (list (option number))) :=
  match fuel with
  | O => OutOfFuel
  | S fuel' =>
      match fgets BUFFER_SIZE stream with
      | None => Ok frame
      | Some (buffer, stream') =>
          let (tokens, save) := strtok (cstr buffer) dlm in
          frame' <- row_loop (S (length buffer)) dlm tokens save row 0 frame ;;
          data_loop fuel' dlm stream' (S row) frame'
      end
  end.

(** [loadCsv]: [filePtr] is assigned the result of [fopen] first.  When
    the file cannot be opened, [createDataFrame] is still called.  When
    the file is empty the first [fgets] leaves [buffer] as it was, and
    [strtok] reads a buffer nothing was written to. *)
Definition loadCsv (filePtr : option FILE) (h : heap) (fs : file_system)
  : outcome csvData_t :=
  let filePtr := fopen fs CSV_PATH in
  df <- createDataFrame filePtr h fs ;;
  match filePtr with
  | None => Undef NullDereference
  | Some stream =>
      dlm <- defined MissingTerminator (block_string (delim df)) ;;
      match fgets BUFFER_SIZE stream with
      | None => Undef IndeterminateBuffer
      | Some (buffer, stream') =>
          let (tokens, save) := strtok (cstr buffer) dlm in
          p <- header_loop (S (length buffer)) h (S PARAMS_ALLOC) dlm
                 tokens save (params df) ;;
          let frame := repeat (repeat None (Z.to_nat (cols df))) (Z.to_nat (rows df)) in
          frame' <- data_loop (S (length stream')) dlm stream' 0 frame ;;
          Ok (mkData (delim df) (rows df) (cols df) p (Some frame'))
      end
  end.

(** ** Sample inputs *)

Definition only (content : bytes) : file_system :=
  fun path => if String.eqb path CSV_PATH then Some content else None.

Definition no_file : file_system := fun _ => None.

Definition line (s : string) : bytes := str s ++ [LF].

Definition abc_file : bytes := line "a, b, c" ++ line "1, 2, 3" ++ line "4, 5, 6".

Definition abc_cells : list (list (option number)) :=
  [[Some (Finite 1); Some (Finite 2); Some (Finite 3)];
   [Some (Finite 4); Some (Finite 5); Some (Finite 6)]].

(** * The functional view of the loops *)

(** ** Tokens *)

(** [fields delim s]: [s] cut at every byte that occurs in [delim]. *)
Fixpoint fields (delim : bytes) (s : bytes) : list bytes :=
  match s with
  | [] => [[]]
  | c :: s' =>
      if is_delim delim c then [] :: fields delim s'
      else match fields delim s' with
           | f :: fs => (c :: f) :: fs
           | [] => [[c]]
           end
  end.

Definition nonempty (t : bytes) : bool :=
  match t with
  | [] => false
  | _ :: _ => true
  end.

(** The tokens [strtok] finds in [s], one call after the other. *)
Definition tokens (delim : bytes) (s : bytes) : list bytes :=
  filter nonempty (fields delim s).

(** ** The token loops *)

(** The cells a row receives, token after token. *)
Fixpoint store_cells (frame : list (list (option number))) (row col : nat) (ts : list bytes)
  : outcome (list (list (option number))) :=
  match ts with
  | [] => Ok frame
  | t :: ts' =>
      frame' <- store_cell frame row col (to_float (atof t)) ;;
      store_cells frame' row (S col) ts'
  end.

(** One header token: the label is trimmed and appended to [params]; the
    token is trimmed once more to be printed. *)
Definition store_label (h : heap) (k : nat) (token : bytes) (params : bytes)
  : outcome bytes :=
  blk <- trimToken h k token ;;
  label <- defined MissingTerminator (block_string blk) ;;
  params' <- strncat params label (length label) ;;
  blk2 <- trimToken h (S k) token ;;
  _ <- defined MissingTerminator (block_string blk2) ;;
  Ok params'.

Fixpoint store_labels (h : heap) (k : nat) (ts : list bytes) (params : bytes)
  : outcome bytes :=
  match ts with
  | [] => Ok params
  | t :: ts' =>
      params' <- store_label h k t params ;;
      store_labels h (S (S k)) ts' params'
  end.

(** ** Lines *)

(** The lines of a stream as successive calls of [fgets] return them: a
    line ends after its newline, after [BUFFER_SIZE - 1] characters, or at
    the end of the stream. *)
Fixpoint read_lines (fuel : nat) (stream : bytes) : list bytes :=
  match fuel with
  | O => []
  | S fuel' =>
      match fgets BUFFER_SIZE stream with
      | None => []
      | Some (buffer, stream') => buffer :: read_lines fuel' stream'
      end
  end.

Definition lines (stream : bytes) : list bytes :=
  read_lines (length stream) stream.

(** ** [getDFsize] on an arbitrary file *)

(** The rows are the lines after the first; the columns are the tokens of
    the second line. *)
Definition dimensions (content : bytes) : Z * Z :=
  match lines content with
  | [] => (0, 0)%Z
  | _ :: [] => (0, 0)%Z
  | _ :: l :: ls =>
      (Z.of_nat (length (l :: ls)), Z.of_nat (length (tokens CSV_DELIM (cstr l))))
  end.

(** ** [loadCsv] on an arbitrary file *)

Fixpoint store_rows (dlm : bytes) (ls : list bytes) (row : nat)
  (frame : list (list (option number))) : outcome (list (list (option number))) :=
  match ls with
  | [] => Ok frame
  | l :: ls' =>
      frame' <- store_cells frame row 0 (tokens dlm (cstr l)) ;;
      store_rows dlm ls' (S row) frame'
  end.

(** [params] as [createDataFrame] leaves it: [c] bytes of fresh memory,
    then the NUL written at index [c]. *)
Definition fresh_params (h : heap) (c : nat) : bytes :=
  malloc h PARAMS_ALLOC c ++ [NUL].

Definition empty_frame (r c : Z) : list (list (option number)) :=
  repeat (repeat None (Z.to_nat c)) (Z.to_nat r).

(** ** [trimToken] *)

Definition alnums (token : bytes) : bytes := filter isalnum token.

(** ** The header *)

(** The characters the header line contributes to [params]. *)
Definition labels (ts : list bytes) : bytes := concat (map alnums ts).

(** ** The data rows *)

Definition values (ts : list bytes) : list (option number) :=
  map (fun t => Some (to_float (atof t))) ts.

(** A row of [c] cells after the tokens [ts] were stored in it. *)
Definition filled_row (c : nat) (ts : list bytes) : list (option number) :=
  values ts ++ repeat None (c - length ts).

Definition line_tokens (l : bytes) : list bytes := tokens CSV_DELIM (cstr l).

(** ** The table [loadCsv] returns *)

(** The table for a file of at least two lines, when fresh memory is
    zero-filled, the labels fit in [params] and no row is wider than the
    first. *)
Definition loaded (header first : bytes) (others : list bytes) : csvData_t :=
  let c := length (line_tokens first) in
  let names := labels (line_tokens header) in
  mkData (strncpy CSV_DELIM SIZEOF_CHAR_PTR)
    (Z.of_nat (S (length others))) (Z.of_nat c)
    (names ++ repeat NUL (S c - length names))
    (Some (map (fun l => filled_row c (line_tokens l)) (first :: others))).

(** * Well-formed files *)

(** A character of a word: not a separator, not a newline, not NUL. *)
Definition plain (c : ascii) : bool :=
  negb (is_delim CSV_DELIM c) && negb (Ascii.eqb c LF) && negb (is_nul c).

Definition word (w : bytes) : bool := nonempty w && forallb plain w.

(** Words separated by [", "]. *)
Fixpoint join (ws : list bytes) : bytes :=
  match ws with
  | [] => []
  | w :: ws' =>
      match ws' with
      | [] => w
      | _ :: _ => w ++ CSV_DELIM ++ join ws'
      end
  end.

Definition csv_line (ws : list bytes) : bytes := join ws ++ [LF].

Definition csv_file (ls : list (list bytes)) : bytes := concat (map csv_line ls).

(** The tokens of a line as [strtok] returns them: the newline stays
    attached to the last one. *)
Fixpoint newline_last (ws : list bytes) : list bytes :=
  match ws with
  | [] => [[LF]]
  | w :: ws' =>
      match ws' with
      | [] => [w ++ [LF]]
      | _ :: _ => w :: newline_last ws'
      end
  end.

Definition fits_buffer (ws : list bytes) : Prop :=
  length (csv_line ws) < BUFFER_SIZE.

(** A well-formed file: a header line and at least one data line; every
    line is a non-empty sequence of words separated by [", "], ends with a
    newline and fits the line buffer. *)
Record well_formed (header first : list bytes) (others : list (list bytes))
  : Prop := mkWellFormed {
  wf_words :
    Forall (fun ws => Forall (fun w => word w = true) ws)
      (header :: first :: others);
  wf_nonempty : Forall (fun ws => ws <> []) (header :: first :: others);
  wf_buffer : Forall fits_buffer (header :: first :: others)
}.

(** The alphanumeric characters of the header are no more than the words
    of the first data line: they fit the [cols + 1] bytes of [params]. *)
Definition header_fits (header first : list bytes) : Prop :=
  length (labels header) <= length first.

(** No data line has more words than the first: they fit the [cols] cells
    of a row. *)
Definition rows_fit (first : list bytes) (others : list (list bytes)) : Prop :=
  Forall (fun ws => length ws <= length first) others.

(** ** Splitting at a literal substring, as the specification words it *)

Fixpoint has_prefix (p s : bytes) : bool :=
  match p, s with
  | [], _ => true
  | _ :: _, [] => false
  | a :: p', b :: s' => Ascii.eqb a b && has_prefix p' s'
  end.

(** [skip] counts the characters of a separator just matched that are
    still to be passed over. *)
Fixpoint split_on_from (delim : bytes) (skip : nat) (s : bytes) : list bytes :=
  match s with
  | [] => [[]]
  | c :: s' =>
      match skip with
      | S k => split_on_from delim k s'
      | O =>
          if has_prefix delim s then [] :: split_on_from delim (length delim - 1) s'
          else match split_on_from delim 0 s' with
               | f :: fs => (c :: f) :: fs
               | [] => [[c]]
               end
      end
  end.

(** The specification's tokenizer: [s] is cut at each occurrence of the
    whole string [delim] and nowhere else. *)
Definition split_on (delim : bytes) (s : bytes) : list bytes :=
  split_on_from delim 0 s.


(** ** More sample inputs *)

Definition bang_heap : heap := fun _ _ => "!"%char.

Definition header_only_file : bytes := line "a, b".

Definition wider_row_file : bytes := line "a" ++ line "1" ++ line "2, 3".
Definition shorter_row_file : bytes := line "a, b" ++ line "1, 2" ++ line "3".

(** ** Numbers in tokens *)

Definition exponent_suffix (s : bytes) : bool :=
  match s with
  | [] => true
  | c :: s' =>
      (Ascii.eqb c "e" || Ascii.eqb c "E") &&
      (let (_, r) := read_sign s' in
       let '(_, n, r') := read_digits isdigit digit_value 10 r 0%Z 0 in
       negb (n =? 0) && negb (nonempty r'))
  end.

(** A valid floating-point literal, in the specification's sense: the
    whole token is a sign, digits with at most one point, and possibly an
    exponent. *)
Definition float_literal (t : bytes) : bool :=
  let (_, r) := read_sign t in
  let '(_, n, _, r') := read_mantissa isdigit digit_value 10 r in
  negb (n =? 0) && exponent_suffix r'.

(** Whether the token, after white space and a sign, goes on with a
    character a number can start with: a digit, a point, or the first
    letter of "inf" or "nan". *)
Definition numeric_start (t : bytes) : bool :=
  match snd (read_sign (skip_space t)) with
  | [] => false
  | c :: _ =>
      isdigit c || Ascii.eqb c "." || Ascii.eqb "i" (lower c) || Ascii.eqb "n" (lower c)
  end.

Definition prefix_number_file : bytes := line "a, b" ++ line "7x, 1".

Definition no_number_file : bytes := line "a, b" ++ line "x, 7".

(** ** Fuel *)

Definition returns {A : Type} (o : outcome A) : Prop := o <> OutOfFuel.

(** * Further sample inputs *)

Definition MAX_LINE : nat := 1023.

Definition MAX_COLS : Z := 512.

(** A matrix of [r] rows of [c] cells. *)
Definition rectangular (r c : nat) (frame : list (list (option number))) : Prop :=
  length frame = r /\ Forall (fun row => length row = c) frame.



(** ** Limits, stale memory and labels that do not fit *)

Definition INT_MAX : Z := 2147483647.

Definition id_name_file : bytes := line "id, name" ++ line "1, 2".

(** A header of twelve labels of fifty letters each, over two columns. *)
Definition long_label : bytes := concat (repeat (str "abcdefghij") 5).
Definition long_labels : list bytes := repeat long_label 12.
Definition long_header_file : bytes :=
  csv_file [long_labels; [str "1"; str "2"]].

Definition ab_c_file : bytes := line "ab, c" ++ line "1, 2, 3" ++ line "4, 5, 6".

(** The strings the structure holds for the header: [params] points to
    one character buffer, so to one string at most. *)
Definition header_strings (df : csvData_t) : list bytes :=
  match block_string (params df) with
  | Some s => [s]
  | None => []
  end.

(** Fresh memory that is zero but for the byte '!' at offset 2 of the
    first block. *)
Definition stale_heap : heap :=
  fun k i => if (k =? 0) && (i =? 2) then "!"%char else NUL.

(** Fresh memory that is zero but for the byte 'x' at offset 0 of the
    block of [params]. *)
Definition stale_params_heap : heap :=
  fun k i => if (k =? PARAMS_ALLOC) && (i =? 0) then "x"%char else NUL.

Definition wide_data_file : bytes := line "a, b" ++ line "1, 2, 3".

(** Tokens that no [float] holds exactly. *)
Definition rounded_cells_file : bytes :=
  line "a, b" ++ line "0.1, 16777217" ++ line "1e39".

(** * Properties *)

(** ** [atof] on sample tokens *)

Example atof_1 : atof (str "1") = Finite 1.
Proof. reflexivity. Qed.
Example atof_3nl : atof (str "3" ++ [LF]) = Finite 3.
Proof. reflexivity. Qed.
Example atof_neg : atof (str " -12.50e1xyz") = Finite (-125).
Proof. reflexivity. Qed.
Example atof_frac : atof (str ".5") = Finite (1 # 2).
Proof. reflexivity. Qed.
Example atof_hex : atof (str "0x1.8p1") = Finite 3.
Proof. reflexivity. Qed.
Example atof_0x : atof (str "0xg") = Finite 0.
Proof. reflexivity. Qed.
Example atof_abc : atof (str "abc") = Finite 0.
Proof. reflexivity. Qed.
Example atof_7x : atof (str "7x") = Finite 7.
Proof. reflexivity. Qed.
Example atof_inf : atof (str "-Infinity") = Infinity true.
Proof. reflexivity. Qed.
Example atof_tenth :
  atof (str "0.1") = Finite (3602879701896397 # 36028797018963968).
Proof. vm_compute. reflexivity. Qed.
Example atof_huge : atof (str "1.8e308") = Infinity false.
Proof. vm_compute. reflexivity. Qed.

(** The same tokens as cells. *)
Example cell_tenth :
  to_float (atof (str "0.1")) = Finite (13421773 # 134217728).
Proof. vm_compute. reflexivity. Qed.
Example cell_odd : to_float (atof (str "16777217")) = Finite 16777216.
Proof. vm_compute. reflexivity. Qed.
Example cell_large : to_float (atof (str "1e39")) = Infinity false.
Proof. vm_compute. reflexivity. Qed.
Example cell_tiny : to_float (atof (str "1e-50")) = Finite 0.
Proof. vm_compute. reflexivity. Qed.
Example cell_negative_tiny : to_float (atof (str "-1e-50")) = NegativeZero.
Proof. vm_compute. reflexivity. Qed.
Example cell_prefix :
  to_float (atof (str "0.1x")) = Finite (13421773 # 134217728).
Proof. vm_compute. reflexivity. Qed.

(** ** [getDFsize] and [loadCsv] on the sample file *)

Example getDFsize_abc : getDFsize None (only abc_file) = Ok (Some (2, 3)%Z).
Proof. vm_compute. reflexivity. Qed.

Example loadCsv_abc :
  loadCsv None zero_heap (only abc_file) =
  Ok (mkData (strncpy CSV_DELIM 8) 2 3 (str "abc" ++ [NUL])
        (Some [[Some (Finite 1); Some (Finite 2); Some (Finite 3)];
               [Some (Finite 4); Some (Finite 5); Some (Finite 6)]])).
Proof. vm_compute. reflexivity. Qed.

(** ** Tokens *)

Lemma fields_not_nil (delim s : bytes) : fields delim s <> [].
Proof.
  destruct s as [|c s]; simpl; [discriminate|].
  destruct (is_delim delim c); [discriminate|].
  destruct (fields delim s); discriminate.
Qed.

Lemma tokens_nil (delim : bytes) : tokens delim [] = [].
Proof. reflexivity. Qed.

Lemma tokens_delim (delim : bytes) (c : ascii) (s : bytes) :
  is_delim delim c = true -> tokens delim (c :: s) = tokens delim s.
Proof. intros H. unfold tokens. simpl. rewrite H. reflexivity. Qed.

Lemma tokens_skip_delims (delim s : bytes) :
  tokens delim (skip_delims delim s) = tokens delim s.
Proof.
  induction s as [|c s IH]; simpl; [reflexivity|].
  destruct (is_delim delim c) eqn:E.
  - rewrite IH. symmetry. apply tokens_delim. exact E.
  - reflexivity.
Qed.

Lemma tokens_span (delim : bytes) (c : ascii) (s : bytes) :
  is_delim delim c = false ->
  tokens delim (c :: s) =
  fst (span_token delim (c :: s)) :: tokens delim (snd (span_token delim (c :: s))).
Proof.
  revert c. induction s as [|c' s IH]; intros c Hc.
  - unfold tokens. simpl. rewrite Hc. reflexivity.
  - specialize (IH c').
    unfold tokens in *. simpl in *. rewrite Hc.
    destruct (is_delim delim c') eqn:E'.
    + simpl. reflexivity.
    + specialize (IH eq_refl).
      destruct (span_token delim s) as [t r] eqn:Es.
      destruct (fields delim s) as [|f fs] eqn:Ef.
      * exfalso. eapply fields_not_nil. exact Ef.
      * simpl in *. inversion IH. subst. reflexivity.
Qed.

Lemma skip_delims_head (delim : bytes) (s : bytes) (c : ascii) (r : bytes) :
  skip_delims delim s = c :: r -> is_delim delim c = false.
Proof.
  induction s as [|x s IH]; simpl; [discriminate|].
  destruct (is_delim delim x) eqn:E; [exact IH|].
  intros H. inversion H. subst. exact E.
Qed.

(** What one call of [strtok] returns, in terms of [tokens]. *)
Lemma strtok_tokens (delim s : bytes) :
  match strtok s delim with
  | (Some t, r) => tokens delim s = t :: tokens delim r
  | (None, r) => tokens delim s = [] /\ r = []
  end.
Proof.
  unfold strtok. rewrite <- (tokens_skip_delims delim s).
  destruct (skip_delims delim s) as [|c r] eqn:E.
  - split; reflexivity.
  - pose proof (tokens_span delim c r (skip_delims_head _ _ _ _ E)) as H.
    destruct (span_token delim (c :: r)) as [t r']. exact H.
Qed.

Lemma skip_delims_length (delim s : bytes) :
  length (skip_delims delim s) <= length s.
Proof.
  induction s as [|c s IH]; simpl; [lia|].
  destruct (is_delim delim c); simpl; lia.
Qed.

Lemma span_token_length (delim s : bytes) :
  length (snd (span_token delim s)) <= pred (length s).
Proof.
  induction s as [|c s IH]; simpl; [lia|].
  destruct (is_delim delim c); simpl; [lia|].
  destruct (span_token delim s) as [t r]. simpl in *. lia.
Qed.

Lemma strtok_shrinks (delim s t r : bytes) :
  strtok s delim = (Some t, r) -> length r < length s.
Proof.
  unfold strtok. pose proof (skip_delims_length delim s) as Hs.
  destruct (skip_delims delim s) as [|c u] eqn:E; [discriminate|].
  pose proof (span_token_length delim (c :: u)) as Hr.
  destruct (span_token delim (c :: u)) as [t' r']. intros H. inversion H. subst.
  simpl in *. lia.
Qed.

(** ** The token loops *)

Lemma count_tokens_spec (fuel : nat) :
  forall (s : bytes) (acc : Z) (tok : option bytes) (save : bytes),
    length s < fuel ->
    strtok s CSV_DELIM = (tok, save) ->
    count_tokens fuel tok save acc =
    Some (acc + Z.of_nat (length (tokens CSV_DELIM s)))%Z.
Proof.
  induction fuel as [|fuel IH]; intros s acc tok save Hlen Hst; [lia|].
  pose proof (strtok_tokens CSV_DELIM s) as H. rewrite Hst in H.
  cbn [count_tokens]. destruct tok as [t|].
  - rewrite H. destruct (strtok save CSV_DELIM) as [t' s'] eqn:E.
    rewrite (IH save (acc + 1)%Z t' s').
    + f_equal. cbn [length]. lia.
    + apply strtok_shrinks in Hst. lia.
    + exact E.
  - destruct H as [H _]. rewrite H. simpl. f_equal. lia.
Qed.

Lemma row_loop_spec (fuel : nat) (dlm : bytes) :
  forall (s : bytes) (tok : option bytes) (save : bytes) (row col : nat)
         (frame : list (list (option number))),
    length s < fuel ->
    strtok s dlm = (tok, save) ->
    row_loop fuel dlm tok save row col frame =
    store_cells frame row col (tokens dlm s).
Proof.
  induction fuel as [|fuel IH]; intros s tok save row col frame Hlen Hst; [lia|].
  pose proof (strtok_tokens dlm s) as H. rewrite Hst in H.
  cbn [row_loop]. destruct tok as [t|].
  - rewrite H. cbn [store_cells].
    destruct (store_cell frame row col (to_float (atof t))) as [frame'| |]; cbn [bind];
      try reflexivity.
    destruct (strtok save dlm) as [t' s'] eqn:E.
    apply (IH save); [|exact E].
    apply strtok_shrinks in Hst. lia.
  - destruct H as [H _]. rewrite H. reflexivity.
Qed.

Lemma header_loop_spec (fuel : nat) (h : heap) (dlm : bytes) :
  forall (s : bytes) (tok : option bytes) (save : bytes) (k : nat) (params : bytes),
    length s < fuel ->
    strtok s dlm = (tok, save) ->
    header_loop fuel h k dlm tok save params =
    store_labels h k (tokens dlm s) params.
Proof.
  induction fuel as [|fuel IH]; intros s tok save k params Hlen Hst; [lia|].
  pose proof (strtok_tokens dlm s) as H. rewrite Hst in H.
  cbn [header_loop]. destruct tok as [t|].
  - rewrite H. cbn [store_labels]. unfold store_label.
    destruct (trimToken h k t) as [blk| |]; cbn [bind]; try reflexivity.
    destruct (defined MissingTerminator (block_string blk)) as [label| |];
      cbn [bind]; try reflexivity.
    destruct (strncat params label (length label)) as [params'| |];
      cbn [bind]; try reflexivity.
    destruct (trimToken h (S k) t) as [blk2| |]; cbn [bind]; try reflexivity.
    destruct (defined MissingTerminator (block_string blk2)) as [x| |];
      cbn [bind]; try reflexivity.
    destruct (strtok save dlm) as [t' s'] eqn:E.
    apply (IH save); [|exact E].
    apply strtok_shrinks in Hst. lia.
  - destruct H as [H _]. rewrite H. reflexivity.
Qed.

(** ** Lines *)

Lemma fgets_chars_cons (n : nat) (c : ascii) (s : bytes) :
  fgets_chars (S n) (c :: s) =
  if Ascii.eqb c LF then ([c], s)
  else let (l, r) := fgets_chars n s in (c :: l, r).
Proof. reflexivity. Qed.

Lemma fgets_chars_shrinks (s : bytes) :
  forall n, length (snd (fgets_chars (S n) s)) <= pred (length s).
Proof.
  induction s as [|c s IH]; intros n; [simpl; lia|].
  rewrite fgets_chars_cons. destruct (Ascii.eqb c LF); [simpl; lia|].
  destruct n as [|n]; [simpl; lia|].
  specialize (IH n). destruct (fgets_chars (S n) s) as [l r].
  cbn [snd length pred] in *. lia.
Qed.

Lemma fgets_Some (size : nat) (s b r : bytes) :
  fgets size s = Some (b, r) -> s <> [] /\ fgets_chars (size - 1) s = (b, r).
Proof.
  unfold fgets. destruct s as [|c s]; [discriminate|].
  intros H. split; [discriminate|congruence].
Qed.

Lemma BUFFER_SIZE_pred : BUFFER_SIZE - 1 = S 1022.
Proof. reflexivity. Qed.

Lemma fgets_shrinks (s b r : bytes) :
  fgets BUFFER_SIZE s = Some (b, r) -> length r < length s.
Proof.
  intros H. apply fgets_Some in H. destruct H as [Hne H].
  rewrite BUFFER_SIZE_pred in H.
  pose proof (fgets_chars_shrinks s 1022) as Hs. rewrite H in Hs.
  destruct s; [congruence|]. cbn [snd length pred] in Hs. cbn [length]. lia.
Qed.

Lemma read_lines_enough (f1 : nat) :
  forall (f2 : nat) (stream : bytes),
    length stream <= f1 -> length stream <= f2 ->
    read_lines f1 stream = read_lines f2 stream.
Proof.
  induction f1 as [|f1 IH]; intros f2 stream H1 H2.
  - destruct stream; [|simpl in H1; lia]. destruct f2; reflexivity.
  - destruct f2 as [|f2].
    + destruct stream; [reflexivity|simpl in H2; lia].
    + cbn [read_lines].
      destruct (fgets BUFFER_SIZE stream) as [[b r]|] eqn:E; [|reflexivity].
      apply fgets_shrinks in E. f_equal. apply IH; lia.
Qed.

Lemma read_lines_fuel (fuel : nat) (stream : bytes) :
  length stream <= fuel -> read_lines fuel stream = lines stream.
Proof. intros H. apply read_lines_enough; [exact H|lia]. Qed.

Lemma lines_step (stream : bytes) :
  lines stream =
  match fgets BUFFER_SIZE stream with
  | None => []
  | Some (buffer, stream') => buffer :: lines stream'
  end.
Proof.
  unfold lines at 1. destruct stream as [|c s]; [reflexivity|].
  cbn [length read_lines].
  destruct (fgets BUFFER_SIZE (c :: s)) as [[b r]|] eqn:E; [|reflexivity].
  apply fgets_shrinks in E. cbn [length] in E.
  rewrite read_lines_fuel by lia. reflexivity.
Qed.

(** ** [getDFsize] on an arbitrary file *)

Lemma cstr_length (b : bytes) : length (cstr b) <= length b.
Proof.
  induction b as [|c b IH]; simpl; [lia|].
  destruct (is_nul c); simpl; lia.
Qed.

Lemma scan_loop_locked (fuel : nat) :
  forall (stream : bytes) (skip rws cls : Z),
    length stream < fuel -> skip <> 0%Z ->
    scan_loop fuel stream (mkScan skip true rws cls) =
    Some (mkScan skip true (rws + Z.of_nat (length (lines stream))) cls).
Proof.
  induction fuel as [|fuel IH]; intros stream skip rws cls Hlen Hskip; [lia|].
  cbn [scan_loop]. rewrite (lines_step stream).
  destruct (fgets BUFFER_SIZE stream) as [[b r]|] eqn:E.
  - unfold scan_line. destruct (strtok (cstr b) CSV_DELIM) as [tok save].
    cbn [skipFirstRow lock dfRows dfCols negb].
    destruct (skip =? 0)%Z eqn:Es; [apply Z.eqb_eq in Es; contradiction|].
    rewrite IH; [|apply fgets_shrinks in E; lia|exact Hskip].
    do 2 f_equal. cbn [length]. lia.
  - cbn [length]. do 2 f_equal. lia.
Qed.

Lemma scan_loop_unlocked (fuel : nat) (stream : bytes) (skip : Z) :
  length stream < fuel -> skip <> 0%Z ->
  scan_loop fuel stream (mkScan skip false 0 0) =
  Some match lines stream with
       | [] => mkScan skip false 0 0
       | l :: ls =>
           mkScan skip true (Z.of_nat (length (l :: ls)))
             (Z.of_nat (length (tokens CSV_DELIM (cstr l))))
       end.
Proof.
  intros Hlen Hskip. destruct fuel as [|fuel]; [lia|].
  cbn [scan_loop]. rewrite (lines_step stream).
  destruct (fgets BUFFER_SIZE stream) as [[b r]|] eqn:E; [|reflexivity].
  unfold scan_line. destruct (strtok (cstr b) CSV_DELIM) as [tok save] eqn:Et.
  cbn [skipFirstRow lock dfRows dfCols negb].
  destruct (skip =? 0)%Z eqn:Es; [apply Z.eqb_eq in Es; contradiction|].
  rewrite (count_tokens_spec _ (cstr b) 0%Z tok save);
    [|pose proof (cstr_length b); lia|exact Et].
  rewrite scan_loop_locked; [|apply fgets_shrinks in E; lia|exact Hskip].
  do 2 f_equal. cbn [length]. lia.
Qed.

Lemma getDFsize_spec (filePtr : option FILE) (fs : file_system) (content : bytes) :
  fs CSV_PATH = Some content ->
  getDFsize filePtr fs = Ok (Some (dimensions content)).
Proof.
  intros Hfs. unfold getDFsize, fopen, dimensions. rewrite Hfs.
  cbn [scan_loop]. rewrite (lines_step content).
  destruct (fgets BUFFER_SIZE content) as [[b r]|] eqn:E; [|reflexivity].
  unfold scan_line at 1. destruct (strtok (cstr b) CSV_DELIM) as [tok save].
  cbn [skipFirstRow lock dfRows dfCols Z.eqb].
  rewrite scan_loop_unlocked; [|apply fgets_shrinks in E; lia|discriminate].
  destruct (lines r) as [|l ls]; reflexivity.
Qed.

Lemma getDFsize_no_file (filePtr : option FILE) (fs : file_system) :
  fs CSV_PATH = None -> getDFsize filePtr fs = Ok None.
Proof. intros Hfs. unfold getDFsize, fopen. rewrite Hfs. reflexivity. Qed.

(** ** [loadCsv] on an arbitrary file *)

Lemma data_loop_spec (fuel : nat) (dlm : bytes) :
  forall (stream : bytes) (row : nat) (frame : list (list (option number))),
    length stream < fuel ->
    data_loop fuel dlm stream row frame = store_rows dlm (lines stream) row frame.
Proof.
  induction fuel as [|fuel IH]; intros stream row frame Hlen; [lia|].
  cbn [data_loop]. rewrite (lines_step stream).
  destruct (fgets BUFFER_SIZE stream) as [[b r]|] eqn:E; [|reflexivity].
  cbn [store_rows].
  destruct (strtok (cstr b) dlm) as [tok save] eqn:Et.
  rewrite (row_loop_spec _ dlm (cstr b) tok save);
    [|pose proof (cstr_length b); lia|exact Et].
  destruct (store_cells frame row 0 (tokens dlm (cstr b))) as [frame'| |];
    cbn [bind]; try reflexivity.
  apply IH. apply fgets_shrinks in E. lia.
Qed.

Lemma store_last {A : Type} (l : list A) (x c : A) :
  store (l ++ [x]) (length l) c = Some (l ++ [c]).
Proof.
  induction l as [|a l IH]; [reflexivity|].
  cbn [app length store]. rewrite IH. reflexivity.
Qed.

Lemma malloc_length (h : heap) (k n : nat) : length (malloc h k n) = n.
Proof. unfold malloc. rewrite length_map, length_seq. reflexivity. Qed.

Lemma malloc_succ (h : heap) (k n : nat) :
  malloc h k (n + 1) = malloc h k n ++ [h k n].
Proof. unfold malloc. rewrite seq_app, map_app. reflexivity. Qed.

Lemma store_malloc_last (h : heap) (k n : nat) (c : ascii) :
  store (malloc h k (n + 1)) n c = Some (malloc h k n ++ [c]).
Proof.
  rewrite malloc_succ.
  pose proof (store_last (malloc h k n) (h k n) c) as H.
  rewrite malloc_length in H. exact H.
Qed.

Lemma createDataFrame_spec (filePtr : option FILE) (h : heap) (fs : file_system)
  (content : bytes) :
  fs CSV_PATH = Some content ->
  createDataFrame filePtr h fs =
  Ok (mkData (strncpy CSV_DELIM SIZEOF_CHAR_PTR)
        (fst (dimensions content)) (snd (dimensions content))
        (fresh_params h (Z.to_nat (snd (dimensions content)))) None).
Proof.
  intros Hfs. unfold createDataFrame.
  rewrite (getDFsize_spec filePtr fs content Hfs). cbn [bind].
  destruct (dimensions content) as [r c]. cbn [fst snd].
  rewrite store_malloc_last. reflexivity.
Qed.

Lemma delim_string : block_string (strncpy CSV_DELIM SIZEOF_CHAR_PTR) = Some CSV_DELIM.
Proof. reflexivity. Qed.

(** The bytes [strncpy] writes for [delim] are more than were allocated. *)
Lemma delim_write_exceeds_request :
  DELIM_REQUEST < length (strncpy CSV_DELIM SIZEOF_CHAR_PTR).
Proof. simpl. unfold DELIM_REQUEST. lia. Qed.

Lemma loadCsv_spec (filePtr : option FILE) (h : heap) (fs : file_system)
  (content : bytes) :
  fs CSV_PATH = Some content ->
  loadCsv filePtr h fs =
  match lines content with
  | [] => Undef IndeterminateBuffer
  | header :: ls =>
      let r := fst (dimensions content) in
      let c := snd (dimensions content) in
      p <- store_labels h (S PARAMS_ALLOC) (tokens CSV_DELIM (cstr header))
             (fresh_params h (Z.to_nat c)) ;;
      frame <- store_rows CSV_DELIM ls 0 (empty_frame r c) ;;
      Ok (mkData (strncpy CSV_DELIM SIZEOF_CHAR_PTR) r c p (Some frame))
  end.
Proof.
  intros Hfs. unfold loadCsv.
  rewrite (createDataFrame_spec _ h fs content Hfs). cbn [bind].
  unfold fopen. rewrite Hfs. cbn [delim rows cols params].
  rewrite delim_string. cbn [defined bind].
  rewrite (lines_step content).
  destruct (fgets BUFFER_SIZE content) as [[b r]|] eqn:E; [|reflexivity].
  destruct (strtok (cstr b) CSV_DELIM) as [tok save] eqn:Et.
  rewrite (header_loop_spec _ h CSV_DELIM (cstr b) tok save);
    [|pose proof (cstr_length b); lia|exact Et].
  cbn zeta.
  destruct (store_labels h (S PARAMS_ALLOC) (tokens CSV_DELIM (cstr b))
              (fresh_params h (Z.to_nat (snd (dimensions content)))))
    as [p| |]; cbn [bind]; try reflexivity.
  rewrite data_loop_spec by lia. reflexivity.
Qed.

Lemma loadCsv_no_file (filePtr : option FILE) (h : heap) (fs : file_system) :
  fs CSV_PATH = None -> loadCsv filePtr h fs = Undef NullDereference.
Proof.
  intros Hfs. unfold loadCsv, createDataFrame.
  rewrite (getDFsize_no_file _ fs Hfs). reflexivity.
Qed.

(** ** [trimToken] *)

Lemma store_middle {A : Type} (pre : list A) (x c : A) (post : list A) :
  store (pre ++ x :: post) (length pre) c = Some (pre ++ c :: post).
Proof.
  induction pre as [|a pre IH]; [reflexivity|].
  cbn [app length store]. rewrite IH. reflexivity.
Qed.

Lemma alnums_length (token : bytes) : length (alnums token) <= length token.
Proof. apply filter_length_le. Qed.

Lemma trim_loop_spec (token : bytes) :
  forall pre post : bytes,
    length (alnums token) <= length post ->
    trim_loop token (pre ++ post) (length pre) =
    Ok (pre ++ alnums token ++ skipn (length (alnums token)) post).
Proof.
  unfold alnums.
  induction token as [|c token IH]; intros pre post Hlen; [reflexivity|].
  cbn [trim_loop filter] in *. destruct (isalnum c); cbn [negb].
  - destruct post as [|x post]; [simpl in Hlen; lia|].
    rewrite store_middle. cbn [defined bind].
    replace (pre ++ c :: post) with ((pre ++ [c]) ++ post)
      by (rewrite <- app_assoc; reflexivity).
    replace (S (length pre)) with (length (pre ++ [c]))
      by (rewrite length_app; simpl; lia).
    rewrite IH by (simpl in Hlen; lia).
    rewrite <- app_assoc. reflexivity.
  - apply IH. exact Hlen.
Qed.

(** The block [trimToken] returns: the alphanumeric characters of the
    token, then the bytes of the block that were never written, except
    that byte 0 was set to NUL before the loop. *)
Lemma trimToken_spec (h : heap) (k : nat) (token : bytes) :
  trimToken h k token =
  Ok (alnums token ++
      skipn (length (alnums token)) (NUL :: map (h k) (seq 1 (length token)))).
Proof.
  unfold trimToken, malloc. rewrite Nat.add_1_r.
  cbn [seq map store defined bind].
  apply (trim_loop_spec token []).
  cbn [length]. rewrite length_map, length_seq.
  pose proof (alnums_length token). lia.
Qed.

Lemma isalnum_not_nul (c : ascii) : isalnum c = true -> is_nul c = false.
Proof.
  unfold is_nul. destruct (Ascii.eqb_spec c NUL) as [->|]; [|reflexivity].
  intros H. vm_compute in H. discriminate.
Qed.

Lemma alnums_no_nul (token : bytes) :
  Forall (fun c => is_nul c = false) (alnums token).
Proof.
  apply Forall_forall. intros c Hc. apply filter_In in Hc.
  apply isalnum_not_nul. apply Hc.
Qed.

Lemma block_string_app (s rest : bytes) :
  Forall (fun c => is_nul c = false) s ->
  block_string (s ++ NUL :: rest) = Some s.
Proof.
  induction 1 as [|c s Hc Hs IH]; [reflexivity|].
  cbn [app block_string]. rewrite Hc, IH. reflexivity.
Qed.

Lemma alnums_idempotent (token : bytes) : alnums (alnums token) = alnums token.
Proof.
  unfold alnums. induction token as [|c token IH]; [reflexivity|].
  cbn [filter]. destruct (isalnum c) eqn:E; [|exact IH].
  cbn [filter]. rewrite E, IH. reflexivity.
Qed.

(** ** Zero-filled memory *)

Lemma malloc_zero (h : heap) (k n : nat) :
  zero_filled h -> malloc h k n = repeat NUL n.
Proof.
  intros Hz. unfold malloc. generalize 0 as start.
  induction n as [|n IH]; intros start; [reflexivity|].
  cbn [seq map repeat]. rewrite Hz, IH. reflexivity.
Qed.

Lemma map_zero (h : heap) (k start n : nat) :
  zero_filled h -> map (h k) (seq start n) = repeat NUL n.
Proof.
  intros Hz. revert start.
  induction n as [|n IH]; intros start; [reflexivity|].
  cbn [seq map repeat]. rewrite Hz, IH. reflexivity.
Qed.

Lemma skipn_repeat {A : Type} (x : A) (n m : nat) :
  skipn n (repeat x m) = repeat x (m - n).
Proof.
  revert m. induction n as [|n IH]; intros m.
  - rewrite Nat.sub_0_r. reflexivity.
  - destruct m as [|m]; [reflexivity|]. cbn [repeat skipn]. apply IH.
Qed.

(** With zero-filled memory the block holds the alphanumeric characters
    and NULs after them. *)
Lemma trimToken_zero (h : heap) (k : nat) (token : bytes) :
  zero_filled h ->
  trimToken h k token =
  Ok (alnums token ++ repeat NUL (S (length token) - length (alnums token))).
Proof.
  intros Hz. rewrite trimToken_spec. rewrite (map_zero h k 1 _ Hz).
  change (NUL :: repeat NUL (length token)) with (repeat NUL (S (length token))).
  rewrite skipn_repeat. reflexivity.
Qed.

Lemma trimToken_zero_string (h : heap) (k : nat) (token : bytes) :
  zero_filled h ->
  exists blk, trimToken h k token = Ok blk /\ block_string blk = Some (alnums token).
Proof.
  intros Hz. rewrite (trimToken_zero h k token Hz).
  eexists. split; [reflexivity|].
  pose proof (alnums_length token) as Hl.
  destruct (S (length token) - length (alnums token)) as [|m] eqn:E; [lia|].
  cbn [repeat]. apply block_string_app. apply alnums_no_nul.
Qed.

(** ** The header with zero-filled memory *)

Lemma write_bytes_spec (w : bytes) :
  forall pre mid post : bytes,
    length mid = length w ->
    write_bytes (pre ++ mid ++ post) (length pre) w = Ok (pre ++ w ++ post).
Proof.
  induction w as [|c w IH]; intros pre mid post Hlen.
  - destruct mid; [reflexivity|discriminate].
  - destruct mid as [|x mid]; [discriminate|].
    cbn [write_bytes app]. rewrite store_middle. cbn [defined bind].
    replace (pre ++ c :: mid ++ post) with ((pre ++ [c]) ++ mid ++ post)
      by (rewrite <- app_assoc; reflexivity).
    replace (S (length pre)) with (length (pre ++ [c]))
      by (rewrite length_app; simpl; lia).
    rewrite IH by (simpl in Hlen; lia).
    rewrite <- app_assoc. reflexivity.
Qed.

Lemma repeat_split {A : Type} (x : A) (n m : nat) :
  n <= m -> repeat x m = repeat x n ++ repeat x (m - n).
Proof.
  intros H. rewrite <- repeat_app. f_equal. lia.
Qed.

Lemma strncat_zero (s l : bytes) (m : nat) :
  Forall (fun c => is_nul c = false) s ->
  length l < m ->
  strncat (s ++ repeat NUL m) l (length l) =
  Ok ((s ++ l) ++ repeat NUL (m - length l)).
Proof.
  intros Hs Hlen. unfold strncat.
  destruct m as [|m']; [lia|].
  cbn [repeat]. rewrite (block_string_app s _ Hs). cbn [defined bind].
  rewrite firstn_all.
  change (NUL :: repeat NUL m') with (repeat NUL (S m')).
  rewrite (repeat_split NUL (length (l ++ [NUL])) (S m'))
    by (rewrite length_app; simpl; lia).
  rewrite write_bytes_spec by (rewrite repeat_length; reflexivity).
  rewrite <- !app_assoc. do 2 f_equal.
  rewrite length_app. cbn [length].
  replace (S m' - (length l + 1)) with (S m' - length l - 1) by lia.
  destruct (S m' - length l) as [|j] eqn:E; [lia|].
  cbn [repeat app]. do 3 f_equal. lia.
Qed.

Lemma store_label_zero (h : heap) (k : nat) (t s : bytes) (m : nat) :
  zero_filled h ->
  Forall (fun c => is_nul c = false) s ->
  length (alnums t) < m ->
  store_label h k t (s ++ repeat NUL m) =
  Ok ((s ++ alnums t) ++ repeat NUL (m - length (alnums t))).
Proof.
  intros Hz Hs Hlen. unfold store_label.
  destruct (trimToken_zero_string h k t Hz) as [blk [E1 E2]].
  destruct (trimToken_zero_string h (S k) t Hz) as [blk2 [E3 E4]].
  rewrite E1. cbn [bind]. rewrite E2. cbn [defined bind].
  rewrite (strncat_zero s (alnums t) m Hs Hlen). cbn [bind].
  rewrite E3. cbn [bind]. rewrite E4. reflexivity.
Qed.

Lemma store_labels_zero (h : heap) (ts : list bytes) :
  zero_filled h ->
  forall (k : nat) (s : bytes) (m : nat),
    Forall (fun c => is_nul c = false) s ->
    length (labels ts) < m ->
    store_labels h k ts (s ++ repeat NUL m) =
    Ok ((s ++ labels ts) ++ repeat NUL (m - length (labels ts))).
Proof.
  intros Hz. unfold labels.
  induction ts as [|t ts IH]; intros k s m Hs Hlen.
  - cbn [map concat store_labels length]. rewrite app_nil_r, Nat.sub_0_r.
    reflexivity.
  - cbn [map concat store_labels] in *. rewrite length_app in Hlen.
    rewrite (store_label_zero h k t s m Hz Hs) by lia. cbn [bind].
    rewrite IH.
    + rewrite length_app, Nat.sub_add_distr, <- !app_assoc. reflexivity.
    + apply Forall_app. split; [exact Hs|apply alnums_no_nul].
    + lia.
Qed.

Lemma fresh_params_zero (h : heap) (c : nat) :
  zero_filled h -> fresh_params h c = repeat NUL (S c).
Proof.
  intros Hz. unfold fresh_params. rewrite (malloc_zero h _ c Hz).
  change [NUL] with (repeat NUL 1). rewrite <- repeat_app.
  f_equal. lia.
Qed.

(** ** The data rows *)

Lemma nth_error_middle {A : Type} (pre : list A) (x : A) (post : list A) :
  nth_error (pre ++ x :: post) (length pre) = Some x.
Proof.
  induction pre as [|a pre IH]; [reflexivity|]. exact IH.
Qed.

Lemma store_cell_spec (before after : list (list (option number))) (pre post : list (option number))
  (x : option number) (v : number) :
  store_cell (before ++ (pre ++ x :: post) :: after) (length before) (length pre) v =
  Ok (before ++ (pre ++ Some v :: post) :: after).
Proof.
  unfold store_cell. rewrite nth_error_middle, store_middle.
  cbn [defined bind]. rewrite store_middle. reflexivity.
Qed.

Lemma store_cells_spec (before after : list (list (option number))) (ts : list bytes) :
  forall pre post : list (option number),
    length ts <= length post ->
    store_cells (before ++ (pre ++ post) :: after) (length before) (length pre) ts =
    Ok (before ++ (pre ++ values ts ++ skipn (length ts) post) :: after).
Proof.
  induction ts as [|t ts IH]; intros pre post Hlen; [reflexivity|].
  destruct post as [|x post]; [simpl in Hlen; lia|].
  cbn [store_cells]. rewrite store_cell_spec. cbn [bind].
  replace (pre ++ Some (to_float (atof t)) :: post)
    with ((pre ++ [Some (to_float (atof t))]) ++ post)
    by (rewrite <- app_assoc; reflexivity).
  replace (S (length pre)) with (length (pre ++ [Some (to_float (atof t))]))
    by (rewrite length_app; simpl; lia).
  rewrite IH by (simpl in Hlen; lia).
  rewrite <- app_assoc. reflexivity.
Qed.

Lemma store_rows_spec (c : nat) (ls : list bytes) :
  forall (done : list (list (option number))) (n : nat),
    Forall (fun l => length (line_tokens l) <= c) ls ->
    length ls <= n ->
    store_rows CSV_DELIM ls (length done) (done ++ repeat (repeat None c) n) =
    Ok (done ++ map (fun l => filled_row c (line_tokens l)) ls
             ++ repeat (repeat None c) (n - length ls)).
Proof.
  induction ls as [|l ls IH]; intros done n Hw Hn.
  - cbn [store_rows map app length]. rewrite Nat.sub_0_r. reflexivity.
  - destruct n as [|n]; [simpl in Hn; lia|].
    inversion Hw as [|? ? Hl Hls]; subst.
    cbn [store_rows repeat].
    pose proof (store_cells_spec done (repeat (repeat None c) n)
                  (line_tokens l) [] (repeat None c)) as H.
    cbn [app length] in H.
    change (tokens CSV_DELIM (cstr l)) with (line_tokens l).
    specialize (H ltac:(rewrite repeat_length; exact Hl)).
    rewrite H. cbn [bind]. rewrite skipn_repeat.
    fold (filled_row c (line_tokens l)).
    replace (done ++ filled_row c (line_tokens l) :: repeat (repeat None c) n)
      with ((done ++ [filled_row c (line_tokens l)]) ++ repeat (repeat None c) n)
      by (rewrite <- app_assoc; reflexivity).
    replace (S (length done)) with (length (done ++ [filled_row c (line_tokens l)]))
      by (rewrite length_app; simpl; lia).
    rewrite IH; [|exact Hls|simpl in Hn; lia].
    rewrite <- app_assoc. reflexivity.
Qed.

(** ** The table [loadCsv] returns *)

Lemma loadCsv_zero (filePtr : option FILE) (h : heap) (fs : file_system)
  (content header first : bytes) (others : list bytes) :
  fs CSV_PATH = Some content ->
  lines content = header :: first :: others ->
  zero_filled h ->
  length (labels (line_tokens header)) <= length (line_tokens first) ->
  Forall (fun l => length (line_tokens l) <= length (line_tokens first)) others ->
  loadCsv filePtr h fs = Ok (loaded header first others).
Proof.
  intros Hfs Hl Hz Hfit Hw.
  rewrite (loadCsv_spec filePtr h fs content Hfs).
  unfold dimensions. rewrite Hl. cbn [fst snd].
  fold (line_tokens first). fold (line_tokens header).
  rewrite !Nat2Z.id.
  rewrite (fresh_params_zero h _ Hz).
  pose proof (store_labels_zero h (line_tokens header) Hz (S PARAMS_ALLOC) []
                (S (length (line_tokens first))) (Forall_nil _)) as Hp.
  cbn [app] in Hp. rewrite Hp by lia. cbn [bind].
  pose proof (store_rows_spec (length (line_tokens first)) (first :: others) []
                (length (first :: others))) as Hr.
  cbn [app] in Hr. unfold empty_frame. rewrite !Nat2Z.id.
  change (@length (list (option number)) []) with 0 in Hr.
  rewrite Hr; [|constructor; [lia|exact Hw]|lia].
  cbn [bind]. rewrite Nat.sub_diag. cbn [repeat]. rewrite app_nil_r.
  reflexivity.
Qed.

(** * Well-formed files *)

Lemma plain_spec (c : ascii) :
  plain c = true ->
  is_delim CSV_DELIM c = false /\ Ascii.eqb c LF = false /\ is_nul c = false.
Proof.
  unfold plain. intros H.
  apply andb_true_iff in H. destruct H as [H H3].
  apply andb_true_iff in H. destruct H as [H1 H2].
  repeat split; apply negb_true_iff; assumption.
Qed.

Lemma fields_free (delim w : bytes) :
  Forall (fun c => is_delim delim c = false) w -> fields delim w = [w].
Proof.
  induction 1 as [|c w Hc Hw IH]; [reflexivity|].
  cbn [fields]. rewrite Hc, IH. reflexivity.
Qed.

Lemma fields_free_delim (delim w : bytes) (c : ascii) (rest : bytes) :
  Forall (fun c => is_delim delim c = false) w ->
  is_delim delim c = true ->
  fields delim (w ++ c :: rest) = w :: fields delim rest.
Proof.
  intros Hw Hc. induction Hw as [|x w Hx Hw IH].
  - cbn [app fields]. rewrite Hc. reflexivity.
  - cbn [app fields]. rewrite Hx, IH. reflexivity.
Qed.

Lemma tokens_free (delim w : bytes) :
  w <> [] -> Forall (fun c => is_delim delim c = false) w -> tokens delim w = [w].
Proof.
  intros Hne Hw. unfold tokens. rewrite (fields_free delim w Hw).
  destruct w; [contradiction|reflexivity].
Qed.

Lemma tokens_free_delim (delim w : bytes) (c : ascii) (rest : bytes) :
  w <> [] -> Forall (fun c => is_delim delim c = false) w ->
  is_delim delim c = true ->
  tokens delim (w ++ c :: rest) = w :: tokens delim rest.
Proof.
  intros Hne Hw Hc. unfold tokens. rewrite (fields_free_delim delim w c rest Hw Hc).
  destruct w; [contradiction|reflexivity].
Qed.

Lemma word_spec (w : bytes) :
  word w = true -> w <> [] /\ Forall (fun c => plain c = true) w.
Proof.
  unfold word. intros H. apply andb_true_iff in H. destruct H as [H1 H2].
  split.
  - destruct w; [discriminate|discriminate].
  - apply Forall_forall. apply forallb_forall. exact H2.
Qed.

Lemma word_free (w : bytes) :
  word w = true -> Forall (fun c => is_delim CSV_DELIM c = false) w.
Proof.
  intros H. apply word_spec in H. destruct H as [_ H].
  eapply Forall_impl; [|exact H]. intros c Hc. apply plain_spec in Hc. apply Hc.
Qed.

Lemma tokens_csv_line (ws : list bytes) :
  Forall (fun w => word w = true) ws ->
  tokens CSV_DELIM (csv_line ws) = newline_last ws.
Proof.
  unfold csv_line.
  induction 1 as [|w ws Hw Hws IH]; [reflexivity|].
  pose proof (word_spec w Hw) as [Hne _]. pose proof (word_free w Hw) as Hfree.
  cbn [join newline_last]. destruct ws as [|w' ws'].
  - apply tokens_free.
    + destruct w; [contradiction|discriminate].
    + apply Forall_app. split; [exact Hfree|]. constructor; [reflexivity|constructor].
  - rewrite <- !app_assoc. change (CSV_DELIM ++ ?x) with (","%char :: " "%char :: x).
    rewrite tokens_free_delim by (assumption || reflexivity).
    rewrite tokens_delim by reflexivity.
    rewrite <- IH. reflexivity.
Qed.

Lemma cstr_no_nul (b : bytes) :
  Forall (fun c => is_nul c = false) b -> cstr b = b.
Proof.
  induction 1 as [|c b Hc Hb IH]; [reflexivity|].
  cbn [cstr]. rewrite Hc, IH. reflexivity.
Qed.

(** The characters of a joined line are those of its words and of the
    separator. *)
Lemma join_Forall (P : ascii -> Prop) (ws : list bytes) :
  Forall P CSV_DELIM ->
  Forall (fun w => Forall P w) ws ->
  Forall P (join ws).
Proof.
  intros Hd. induction 1 as [|w ws Hw Hws IH]; [constructor|].
  cbn [join]. destruct ws as [|w' ws']; [exact Hw|].
  apply Forall_app. split; [exact Hw|].
  apply Forall_app. split; [exact Hd|exact IH].
Qed.

Lemma words_Forall (P : ascii -> Prop) (ws : list bytes) :
  (forall c, plain c = true -> P c) ->
  Forall (fun w => word w = true) ws ->
  Forall (fun w => Forall P w) ws.
Proof.
  intros HP H. eapply Forall_impl; [|exact H].
  intros w Hw. apply word_spec in Hw. destruct Hw as [_ Hw].
  eapply Forall_impl; [|exact Hw]. exact HP.
Qed.

Lemma join_no_nul (ws : list bytes) :
  Forall (fun w => word w = true) ws ->
  Forall (fun c => is_nul c = false) (join ws).
Proof.
  intros H. apply join_Forall.
  - repeat constructor.
  - apply words_Forall; [|exact H]. intros c Hc. apply plain_spec in Hc. apply Hc.
Qed.

Lemma join_no_newline (ws : list bytes) :
  Forall (fun w => word w = true) ws ->
  Forall (fun c => Ascii.eqb c LF = false) (join ws).
Proof.
  intros H. apply join_Forall.
  - repeat constructor.
  - apply words_Forall; [|exact H]. intros c Hc. apply plain_spec in Hc. apply Hc.
Qed.

Lemma line_tokens_csv_line (ws : list bytes) :
  Forall (fun w => word w = true) ws ->
  line_tokens (csv_line ws) = newline_last ws.
Proof.
  intros H. unfold line_tokens. rewrite cstr_no_nul.
  - apply tokens_csv_line. exact H.
  - unfold csv_line. apply Forall_app. split; [apply join_no_nul; exact H|].
    constructor; [reflexivity|constructor].
Qed.

Lemma newline_last_length (ws : list bytes) :
  ws <> [] -> length (newline_last ws) = length ws.
Proof.
  induction ws as [|w ws IH]; [contradiction|]. intros _.
  cbn [newline_last]. destruct ws as [|w' ws']; [reflexivity|].
  cbn [length] in *. rewrite IH by discriminate. reflexivity.
Qed.

(** [fgets] returns a whole line when the line, newline included, has at
    most [BUFFER_SIZE - 1] characters. *)
Lemma fgets_chars_line (l rest : bytes) :
  Forall (fun c => Ascii.eqb c LF = false) l ->
  forall n, length l < n ->
  fgets_chars n (l ++ LF :: rest) = (l ++ [LF], rest).
Proof.
  induction 1 as [|c l Hc Hl IH]; intros n Hn.
  - destruct n as [|n]; [lia|]. reflexivity.
  - destruct n as [|n]; [simpl in Hn; lia|].
    cbn [app]. rewrite fgets_chars_cons, Hc, IH by (simpl in Hn; lia).
    reflexivity.
Qed.

Lemma lines_csv_line (ws : list bytes) (rest : bytes) :
  Forall (fun w => word w = true) ws ->
  length (csv_line ws) < BUFFER_SIZE ->
  lines (csv_line ws ++ rest) = csv_line ws :: lines rest.
Proof.
  intros Hws Hlen. rewrite lines_step. unfold fgets, csv_line in *.
  rewrite <- app_assoc. cbn [app].
  rewrite fgets_chars_line.
  - destruct (join ws ++ LF :: rest) eqn:E; [|reflexivity].
    destruct (join ws); discriminate.
  - apply join_no_newline. exact Hws.
  - rewrite length_app in Hlen. cbn [length] in Hlen.
    unfold BUFFER_SIZE in *. lia.
Qed.

Lemma lines_csv_file (ls : list (list bytes)) :
  Forall (fun ws => Forall (fun w => word w = true) ws) ls ->
  Forall fits_buffer ls ->
  lines (csv_file ls) = map csv_line ls.
Proof.
  unfold csv_file. induction 1 as [|ws ls Hws Hls IH]; intros Hfit.
  - reflexivity.
  - inversion Hfit; subst. cbn [map concat].
    rewrite lines_csv_line by assumption.
    rewrite IH by assumption. reflexivity.
Qed.

Lemma alnums_newline (w : bytes) : alnums (w ++ [LF]) = alnums w.
Proof.
  unfold alnums. rewrite filter_app. cbn [filter].
  change (isalnum LF) with false. apply app_nil_r.
Qed.

Lemma labels_newline_last (ws : list bytes) :
  labels (newline_last ws) = labels ws.
Proof.
  unfold labels. induction ws as [|w ws IH]; [reflexivity|].
  cbn [newline_last]. destruct ws as [|w' ws'].
  - cbn [map concat]. rewrite alnums_newline. reflexivity.
  - cbn [map concat] in *. rewrite IH. reflexivity.
Qed.

Lemma line_tokens_width (ws : list bytes) :
  Forall (fun w => word w = true) ws -> ws <> [] ->
  length (line_tokens (csv_line ws)) = length ws.
Proof.
  intros Hw Hne. rewrite line_tokens_csv_line by exact Hw.
  apply newline_last_length. exact Hne.
Qed.

Section WellFormed.

Variables (header first : list bytes) (others : list (list bytes)).
Hypothesis WF : well_formed header first others.

Lemma wf_lines :
  lines (csv_file (header :: first :: others)) = csv_line header :: csv_line first :: map csv_line others.
Proof.
  rewrite lines_csv_file; [reflexivity| |]; apply WF.
Qed.

Lemma wf_first_width : length (line_tokens (csv_line first)) = length first.
Proof.
  pose proof (wf_words _ _ _ WF) as Hw. pose proof (wf_nonempty _ _ _ WF) as Hn.
  inversion Hw as [|? ? _ Hw']. inversion Hw'. subst.
  inversion Hn as [|? ? _ Hn']. inversion Hn'. subst.
  apply line_tokens_width; assumption.
Qed.

Lemma wf_dimensions :
  dimensions (csv_file (header :: first :: others)) =
  (Z.of_nat (S (length others)), Z.of_nat (length first)).
Proof.
  unfold dimensions. rewrite wf_lines.
  fold (line_tokens (csv_line first)). rewrite wf_first_width.
  cbn [length]. rewrite length_map. reflexivity.
Qed.

Lemma wf_loaded (filePtr : option FILE) (h : heap) (fs : file_system) :
  fs CSV_PATH = Some (csv_file (header :: first :: others)) ->
  zero_filled h ->
  header_fits header first ->
  rows_fit first others ->
  loadCsv filePtr h fs =
  Ok (loaded (csv_line header) (csv_line first) (map csv_line others)).
Proof.
  intros Hfs Hz Hfit Hwd.
  pose proof (wf_words _ _ _ WF) as Hw. pose proof (wf_nonempty _ _ _ WF) as Hn.
  inversion Hw as [|? ? Hwh Hw']. inversion Hw' as [|? ? Hwf Hwo]. subst.
  inversion Hn as [|? ? _ Hn']. inversion Hn' as [|? ? _ Hno]. subst.
  apply (loadCsv_zero filePtr h fs (csv_file (header :: first :: others)));
    try assumption.
  - apply wf_lines.
  - rewrite wf_first_width, line_tokens_csv_line by assumption.
    rewrite labels_newline_last. exact Hfit.
  - rewrite wf_first_width. apply Forall_forall. intros l Hl.
    apply in_map_iff in Hl. destruct Hl as [ws [<- Hin]].
    rewrite line_tokens_width.
    + unfold rows_fit in Hwd. rewrite Forall_forall in Hwd. apply Hwd. exact Hin.
    + rewrite Forall_forall in Hwo. apply Hwo. exact Hin.
    + rewrite Forall_forall in Hno. apply Hno. exact Hin.
Qed.

End WellFormed.

(** ** The loops never run out of fuel *)

Lemma returns_bind {A B : Type} (m : outcome A) (k : A -> outcome B) :
  returns m -> (forall a, returns (k a)) -> returns (bind m k).
Proof.
  unfold returns. intros Hm Hk. destruct m as [a| |]; cbn [bind].
  - apply Hk.
  - discriminate.
  - contradiction.
Qed.

Lemma returns_defined {A : Type} (f : fault) (o : option A) :
  returns (defined f o).
Proof. destruct o; discriminate. Qed.

Lemma returns_Ok {A : Type} (a : A) : returns (Ok a).
Proof. discriminate. Qed.

Lemma returns_write_bytes (s : bytes) :
  forall b i, returns (write_bytes b i s).
Proof.
  induction s as [|c s IH]; intros b i; [apply returns_Ok|].
  cbn [write_bytes]. apply returns_bind; [apply returns_defined|].
  intros b'. apply IH.
Qed.

Lemma returns_store_label (h : heap) (k : nat) (t p : bytes) :
  returns (store_label h k t p).
Proof.
  unfold store_label. rewrite !trimToken_spec. cbn [bind].
  apply returns_bind; [apply returns_defined|]. intros label.
  apply returns_bind.
  - unfold strncat. apply returns_bind; [apply returns_defined|].
    intros d. apply returns_write_bytes.
  - intros p'. apply returns_bind; [apply returns_defined|].
    intros x. apply returns_Ok.
Qed.

Lemma returns_store_labels (h : heap) (ts : list bytes) :
  forall k p, returns (store_labels h k ts p).
Proof.
  induction ts as [|t ts IH]; intros k p; [apply returns_Ok|].
  cbn [store_labels]. apply returns_bind; [apply returns_store_label|].
  intros p'. apply IH.
Qed.

Lemma returns_store_cell (frame : list (list (option number))) (row col : nat)
  (v : number) : returns (store_cell frame row col v).
Proof.
  unfold store_cell. destruct (nth_error frame row); [|discriminate].
  apply returns_bind; [apply returns_defined|].
  intros r. apply returns_defined.
Qed.

Lemma returns_store_cells (ts : list bytes) :
  forall frame row col, returns (store_cells frame row col ts).
Proof.
  induction ts as [|t ts IH]; intros frame row col; [apply returns_Ok|].
  cbn [store_cells]. apply returns_bind; [apply returns_store_cell|].
  intros f. apply IH.
Qed.

Lemma returns_store_rows (dlm : bytes) (ls : list bytes) :
  forall row frame, returns (store_rows dlm ls row frame).
Proof.
  induction ls as [|l ls IH]; intros row frame; [apply returns_Ok|].
  cbn [store_rows]. apply returns_bind; [apply returns_store_cells|].
  intros f. apply IH.
Qed.

Lemma getDFsize_returns (filePtr : option FILE) (fs : file_system) :
  returns (getDFsize filePtr fs).
Proof.
  destruct (fs CSV_PATH) as [content|] eqn:E.
  - rewrite (getDFsize_spec filePtr fs content E). discriminate.
  - rewrite (getDFsize_no_file filePtr fs E). discriminate.
Qed.

Lemma loadCsv_returns (filePtr : option FILE) (h : heap) (fs : file_system) :
  returns (loadCsv filePtr h fs).
Proof.
  destruct (fs CSV_PATH) as [content|] eqn:E.
  - rewrite (loadCsv_spec filePtr h fs content E).
    destruct (lines content) as [|header ls]; [discriminate|].
    cbv zeta. apply returns_bind; [apply returns_store_labels|].
    intros p. apply returns_bind; [apply returns_store_rows|].
    intros f. apply returns_Ok.
  - rewrite (loadCsv_no_file filePtr h fs E). discriminate.
Qed.

(** ** Blocks and strings in a completed run *)

Lemma store_Some_length {A : Type} (b : list A) :
  forall i c b', store b i c = Some b' -> length b' = length b.
Proof.
  induction b as [|x b IH]; intros i c b' H; [discriminate|].
  destruct i as [|i]; cbn [store] in H.
  - inversion H. reflexivity.
  - destruct (store b i c) as [r|] eqn:E; [|discriminate].
    inversion H. cbn [length]. rewrite (IH i c r E). reflexivity.
Qed.

Lemma store_Some_In {A : Type} (b : list A) :
  forall i c b', store b i c = Some b' -> In c b'.
Proof.
  induction b as [|x b IH]; intros i c b' H; [discriminate|].
  destruct i as [|i]; cbn [store] in H.
  - inversion H. left. reflexivity.
  - destruct (store b i c) as [r|] eqn:E; [|discriminate].
    inversion H. right. apply (IH i c r E).
Qed.

Lemma store_Some_here {A : Type} (b : list A) :
  forall i c b', store b i c = Some b' -> nth_error b' i = Some c.
Proof.
  induction b as [|x b IH]; intros i c b' H; [discriminate|].
  destruct i as [|i]; cbn [store] in H.
  - inversion H. reflexivity.
  - destruct (store b i c) as [r|] eqn:E; [|discriminate].
    inversion H. cbn [nth_error]. apply (IH i c r E).
Qed.

Lemma store_None {A : Type} (b : list A) :
  forall i c, length b <= i -> store b i c = None.
Proof.
  induction b as [|x b IH]; intros i c H; [reflexivity|].
  destruct i as [|i]; [simpl in H; lia|].
  cbn [store]. rewrite IH by (simpl in H; lia). reflexivity.
Qed.

Lemma defined_Ok {A : Type} (f : fault) (o : option A) (a : A) :
  defined f o = Ok a -> o = Some a.
Proof. destruct o; [intros H; inversion H; reflexivity|discriminate]. Qed.

Lemma bind_Ok {A B : Type} (m : outcome A) (k : A -> outcome B) (b : B) :
  bind m k = Ok b -> exists a, m = Ok a /\ k a = Ok b.
Proof.
  destruct m as [a| |]; cbn [bind]; try discriminate.
  intros H. exists a. split; [reflexivity|exact H].
Qed.

Lemma write_bytes_Ok_length (s : bytes) :
  forall b i b', write_bytes b i s = Ok b' -> length b' = length b.
Proof.
  induction s as [|c s IH]; intros b i b' H.
  - inversion H. reflexivity.
  - cbn [write_bytes] in H. apply bind_Ok in H. destruct H as [b1 [H1 H2]].
    apply defined_Ok in H1. apply store_Some_length in H1.
    rewrite (IH _ _ _ H2). exact H1.
Qed.

Lemma write_bytes_Ok_last (s : bytes) (z : ascii) :
  forall b i b', write_bytes b i (s ++ [z]) = Ok b' -> In z b'.
Proof.
  induction s as [|c s IH]; intros b i b' H.
  - cbn [app write_bytes] in H. apply bind_Ok in H. destruct H as [b1 [H1 H2]].
    apply defined_Ok in H1. inversion H2. subst.
    apply (store_Some_In _ _ _ _ H1).
  - cbn [app write_bytes] in H. apply bind_Ok in H. destruct H as [b1 [H1 H2]].
    apply (IH _ _ _ H2).
Qed.

Lemma block_string_In (b : bytes) :
  In NUL b -> exists s, block_string b = Some s /\ length s < length b.
Proof.
  induction b as [|c b IH]; intros H; [destruct H|].
  cbn [block_string]. destruct (is_nul c) eqn:E.
  - exists []. split; [reflexivity|simpl; lia].
  - destruct H as [H|H].
    + subst c. discriminate.
    + destruct (IH H) as [s [Hs Hl]]. rewrite Hs.
      exists (c :: s). split; [reflexivity|simpl; lia].
Qed.

(** [strncat] keeps the size of the destination and leaves a terminator
    in it. *)
Lemma strncat_Ok (dest src : bytes) (n : nat) (b' : bytes) :
  strncat dest src n = Ok b' -> length b' = length dest /\ In NUL b'.
Proof.
  unfold strncat. intros H. apply bind_Ok in H. destruct H as [d [_ H]].
  split.
  - apply (write_bytes_Ok_length _ _ _ _ H).
  - apply (write_bytes_Ok_last _ _ _ _ _ H).
Qed.

Lemma store_label_Ok (h : heap) (k : nat) (t p p' : bytes) :
  store_label h k t p = Ok p' -> length p' = length p /\ In NUL p'.
Proof.
  unfold store_label. intros H.
  apply bind_Ok in H. destruct H as [blk [_ H]].
  apply bind_Ok in H. destruct H as [label [_ H]].
  apply bind_Ok in H. destruct H as [q [Hq H]].
  apply bind_Ok in H. destruct H as [blk2 [_ H]].
  apply bind_Ok in H. destruct H as [x [_ H]].
  inversion H. subst. apply (strncat_Ok _ _ _ _ Hq).
Qed.

Lemma store_labels_Ok (h : heap) (ts : list bytes) :
  forall k p p',
    In NUL p ->
    store_labels h k ts p = Ok p' -> length p' = length p /\ In NUL p'.
Proof.
  induction ts as [|t ts IH]; intros k p p' Hp H.
  - inversion H. subst. split; [reflexivity|exact Hp].
  - cbn [store_labels] in H. apply bind_Ok in H. destruct H as [q [Hq H]].
    apply store_label_Ok in Hq. destruct Hq as [Hl Hn].
    destruct (IH _ _ _ Hn H) as [Hl' Hn']. split; [lia|exact Hn'].
Qed.

Lemma store_in_bounds {A : Type} (b : list A) :
  forall i c, i < length b -> exists b', store b i c = Some b'.
Proof.
  induction b as [|x b IH]; intros i c H; [simpl in H; lia|].
  destruct i as [|i]; cbn [store].
  - eexists. reflexivity.
  - destruct (IH i c) as [r Hr]; [simpl in H; lia|].
    rewrite Hr. eexists. reflexivity.
Qed.

Lemma store_Some_Forall {A : Type} (P : A -> Prop) (b : list A) :
  forall i c b', store b i c = Some b' -> Forall P b -> P c -> Forall P b'.
Proof.
  induction b as [|x b IH]; intros i c b' H Hb Hc; [discriminate|].
  inversion Hb as [|? ? Hx Hb']. subst.
  destruct i as [|i]; cbn [store] in H.
  - inversion H. constructor; assumption.
  - destruct (store b i c) as [r|] eqn:E; [|discriminate].
    inversion H. constructor; [exact Hx|]. apply (IH i c r E); assumption.
Qed.

Lemma store_cell_Ok (r c : nat) (frame frame' : list (list (option number)))
  (row col : nat) (v : number) :
  store_cell frame row col v = Ok frame' ->
  rectangular r c frame -> rectangular r c frame'.
Proof.
  unfold store_cell, rectangular. intros H [Hr Hc].
  destruct (nth_error frame row) as [x|] eqn:E; [|discriminate].
  apply bind_Ok in H. destruct H as [x' [H1 H2]].
  apply defined_Ok in H1. apply defined_Ok in H2.
  split.
  - rewrite (store_Some_length _ _ _ _ H2). exact Hr.
  - apply (store_Some_Forall _ _ _ _ _ H2 Hc).
    rewrite (store_Some_length _ _ _ _ H1).
    rewrite Forall_forall in Hc. apply Hc.
    apply (nth_error_In _ _ E).
Qed.

Lemma store_cells_Ok (r c : nat) (ts : list bytes) :
  forall frame frame' row col,
    store_cells frame row col ts = Ok frame' ->
    rectangular r c frame -> rectangular r c frame'.
Proof.
  induction ts as [|t ts IH]; intros frame frame' row col H Hf.
  - inversion H. subst. exact Hf.
  - cbn [store_cells] in H. apply bind_Ok in H. destruct H as [f1 [H1 H2]].
    apply (IH _ _ _ _ H2). apply (store_cell_Ok _ _ _ _ _ _ _ H1 Hf).
Qed.

Lemma empty_frame_rectangular (r c : Z) :
  rectangular (Z.to_nat r) (Z.to_nat c) (empty_frame r c).
Proof.
  unfold rectangular, empty_frame. split; [apply repeat_length|].
  apply Forall_forall. intros row H. apply repeat_spec in H. subst.
  apply repeat_length.
Qed.

Lemma fresh_params_shape (h : heap) (c : nat) :
  length (fresh_params h c) = c + 1 /\ In NUL (fresh_params h c).
Proof.
  unfold fresh_params. split.
  - rewrite length_app, malloc_length. reflexivity.
  - apply in_or_app. right. left. reflexivity.
Qed.

(** ** Writes past the end of a block *)

Lemma write_bytes_overflow (s : bytes) :
  forall b i,
    i <= length b ->
    length b < i + length s ->
    write_bytes b i s = Undef OutOfBounds.
Proof.
  induction s as [|c s IH]; intros b i Hi Hlen; [simpl in Hlen; lia|].
  cbn [write_bytes].
  destruct (Nat.lt_ge_cases i (length b)) as [Hin|Hout].
  - destruct (store_in_bounds b i c Hin) as [b' Hb']. rewrite Hb'.
    cbn [defined bind]. apply IH.
    + rewrite (store_Some_length _ _ _ _ Hb'). lia.
    + rewrite (store_Some_length _ _ _ _ Hb'). cbn [length] in Hlen. lia.
  - rewrite (store_None b i c Hout). reflexivity.
Qed.

(** ** Labels that do not fit [params], whatever the memory holds *)

Lemma block_string_Some (b s : bytes) :
  block_string b = Some s ->
  Forall (fun c => is_nul c = false) s /\ exists rest, b = s ++ NUL :: rest.
Proof.
  revert s. induction b as [|c b IH]; intros s H; [discriminate|].
  cbn [block_string] in H. destruct (is_nul c) eqn:E.
  - inversion H. subst. split; [constructor|].
    unfold is_nul in E. apply Ascii.eqb_eq in E. subst c.
    exists b. reflexivity.
  - destruct (block_string b) as [s'|] eqn:Eb; [|discriminate].
    inversion H. subst. destruct (IH s' eq_refl) as [Hs [rest Hb]].
    split; [constructor; assumption|].
    exists rest. cbn [app]. rewrite <- Hb. reflexivity.
Qed.

Lemma block_string_prefix (a tail s : bytes) :
  Forall (fun c => is_nul c = false) a ->
  block_string (a ++ tail) = Some s -> exists s', s = a ++ s'.
Proof.
  intros Ha. revert s. induction Ha as [|c a Hc Ha IH]; intros s H.
  - exists s. reflexivity.
  - cbn [app block_string] in H. rewrite Hc in H.
    destruct (block_string (a ++ tail)) as [s0|] eqn:E; [|discriminate].
    inversion H. subst. destruct (IH s0 eq_refl) as [s' Hs'].
    exists s'. cbn [app]. rewrite Hs'. reflexivity.
Qed.

(** What [strncat] leaves in the destination when it stays inside it. *)
Lemma strncat_Ok_string (dest src b' d : bytes) :
  Forall (fun c => is_nul c = false) src ->
  block_string dest = Some d ->
  strncat dest src (length src) = Ok b' ->
  block_string b' = Some (d ++ src).
Proof.
  intros Hsrc Hd H. unfold strncat in H. rewrite Hd in H.
  cbn [defined bind] in H. rewrite firstn_all in H.
  destruct (block_string_Some dest d Hd) as [Hdn [rest Hdest]].
  subst dest.
  destruct (Nat.le_gt_cases (length (src ++ [NUL])) (length (NUL :: rest)))
    as [Hfit|Hover].
  - rewrite <- (firstn_skipn (length (src ++ [NUL])) (NUL :: rest)) in H.
    rewrite write_bytes_spec in H
      by (rewrite length_firstn; lia).
    inversion H. subst b'.
    rewrite <- app_assoc. cbn [app].
    rewrite app_assoc. apply block_string_app.
    apply Forall_app. split; assumption.
  - rewrite write_bytes_overflow in H; [discriminate| |].
    + rewrite length_app. lia.
    + rewrite length_app. lia.
Qed.

Lemma store_label_Ok_string (h : heap) (k : nat) (t p p' d : bytes) :
  block_string p = Some d ->
  store_label h k t p = Ok p' ->
  exists s, block_string p' = Some (d ++ s) /\ length (alnums t) <= length s.
Proof.
  intros Hd H. unfold store_label in H.
  rewrite trimToken_spec in H. cbn [bind] in H.
  apply bind_Ok in H. destruct H as [label [Hlabel H]].
  apply defined_Ok in Hlabel.
  apply bind_Ok in H. destruct H as [q [Hq H]].
  apply bind_Ok in H. destruct H as [blk2 [_ H]].
  apply bind_Ok in H. destruct H as [x [_ H]].
  inversion H. subst q.
  destruct (block_string_Some _ _ Hlabel) as [Hln _].
  destruct (block_string_prefix _ _ _ (alnums_no_nul t) Hlabel) as [s' Hs'].
  exists label. split.
  - apply (strncat_Ok_string p label p' d Hln Hd Hq).
  - rewrite Hs', length_app. lia.
Qed.

Lemma store_labels_Ok_string (h : heap) (ts : list bytes) :
  forall k p p' d,
    block_string p = Some d ->
    store_labels h k ts p = Ok p' ->
    exists s, block_string p' = Some (d ++ s) /\ length (labels ts) <= length s.
Proof.
  unfold labels. induction ts as [|t ts IH]; intros k p p' d Hd H.
  - inversion H. subst. exists []. rewrite app_nil_r. split; [exact Hd|simpl; lia].
  - cbn [store_labels] in H. apply bind_Ok in H. destruct H as [q [Hq H]].
    destruct (store_label_Ok_string h k t p q d Hd Hq) as [s1 [Hs1 Hl1]].
    destruct (IH _ _ _ _ Hs1 H) as [s2 [Hs2 Hl2]].
    exists (s1 ++ s2). rewrite app_assoc. split; [exact Hs2|].
    cbn [map concat]. rewrite !length_app. lia.
Qed.

(** When the header line has more alphanumeric characters than [params]
    has room for, the header loop does not complete. *)
Lemma store_labels_too_long (h : heap) (k c : nat) (ts : list bytes) :
  c < length (labels ts) ->
  exists f, store_labels h k ts (fresh_params h c) = Undef f.
Proof.
  intros Hlong.
  destruct (store_labels h k ts (fresh_params h c)) as [p|f|] eqn:E.
  - exfalso.
    destruct (fresh_params_shape h c) as [Hl0 Hn0].
    destruct (block_string_In _ Hn0) as [d0 [Hd0 _]].
    destruct (store_labels_Ok_string h ts k _ p d0 Hd0 E) as [s [Hs Hls]].
    destruct (store_labels_Ok h ts k _ p Hn0 E) as [Hlp _].
    destruct (block_string_Some p _ Hs) as [_ [rest Hp]].
    assert (Hlen : length p = length ((d0 ++ s) ++ NUL :: rest)) by congruence.
    rewrite !length_app in Hlen. cbn [length] in Hlen. lia.
  - exists f. reflexivity.
  - exfalso. eapply returns_store_labels. exact E.
Qed.

Lemma loadCsv_header_too_long (filePtr : option FILE) (h : heap)
  (fs : file_system) (content header : bytes) (ls : list bytes) :
  fs CSV_PATH = Some content ->
  lines content = header :: ls ->
  Z.to_nat (snd (dimensions content)) < length (labels (line_tokens header)) ->
  exists f, loadCsv filePtr h fs = Undef f.
Proof.
  intros Hfs Hl Hlong.
  rewrite (loadCsv_spec filePtr h fs content Hfs). rewrite Hl. cbv zeta.
  fold (line_tokens header).
  destruct (store_labels_too_long h (S PARAMS_ALLOC) _ _ Hlong) as [f Hf].
  rewrite Hf. exists f. reflexivity.
Qed.

(** * The claims *)

(** C1.  A well-formed file with R data lines and C words in the first of
    them, whose header line has more than C alphanumeric characters.  The
    scan returns the pair (R, C), so [params] is a block of C + 1 bytes;
    the header loop then appends every label to it, and whatever fresh
    memory holds the load reaches undefined behaviour before it returns:
    a write past the end of [params], or a read past the end of a label
    that has no terminator. *)
Theorem loadCsv_labels_overrun (filePtr : option FILE) (h : heap)
  (fs : file_system) (header first : list bytes) (others : list (list bytes)) :
  fs CSV_PATH = Some (csv_file (header :: first :: others)) ->
  well_formed header first others ->
  length first < length (labels header) ->
  getDFsize filePtr fs =
    Ok (Some (Z.of_nat (S (length others)), Z.of_nat (length first))) /\
  exists f, loadCsv filePtr h fs = Undef f.
Proof.
  intros Hfs WF Hlong. split.
  - rewrite (getDFsize_spec filePtr fs _ Hfs).
    rewrite (wf_dimensions header first others WF). reflexivity.
  - apply (loadCsv_header_too_long filePtr h fs _ (csv_line header)
             (csv_line first :: map csv_line others) Hfs).
    + apply (wf_lines header first others WF).
    + rewrite (wf_dimensions header first others WF). cbn [snd].
      rewrite Nat2Z.id.
      pose proof (wf_words _ _ _ WF) as Hw. inversion Hw as [|? ? Hwh _]. subst.
      rewrite (line_tokens_csv_line header Hwh), labels_newline_last.
      exact Hlong.
Qed.

Lemma loadCsv_labels_overrun_witness :
  getDFsize None (only long_header_file) = Ok (Some (1, 2)%Z) /\
  exists f, loadCsv None zero_heap (only long_header_file) = Undef f.
Proof.
  apply (loadCsv_labels_overrun None zero_heap (only long_header_file)
           long_labels [str "1"; str "2"] []).
  - reflexivity.
  - constructor.
    + repeat constructor.
    + repeat constructor; discriminate.
    + unfold fits_buffer, BUFFER_SIZE. repeat constructor; simpl; lia.
  - vm_compute. lia.
Defined.

(** The smallest file of that kind: the labels "id" and "name" over two
    columns need seven bytes of the three that [params] has. *)
Example loadCsv_id_name :
  well_formed [str "id"; str "name"] [str "1"; str "2"] [] /\
  id_name_file = csv_file [[str "id"; str "name"]; [str "1"; str "2"]] /\
  getDFsize None (only id_name_file) = Ok (Some (1, 2)%Z) /\
  loadCsv None zero_heap (only id_name_file) = Undef OutOfBounds.
Proof.
  split.
  - constructor.
    + repeat constructor.
    + repeat constructor; discriminate.
    + unfold fits_buffer, BUFFER_SIZE. repeat constructor; simpl; lia.
  - repeat split.
Qed.

(** C2, counterexample.  The table returned for the file "a, b, c" /
    "1, 2, 3" / "4, 5, 6" holds one header string, "abc", not the three
    strings "a", "b", "c"; the file with the header "ab, c" gives the very
    same table, so the labels cannot be told apart in it.  And a table
    comes back only for some contents of fresh memory: with '!' in every
    fresh byte the trimmed label has no terminator. *)
Lemma header_not_a_sequence :
  exists df,
    loadCsv None zero_heap (only abc_file) = Ok df /\
    header_strings df = [str "abc"] /\
    header_strings df <> [str "a"; str "b"; str "c"] /\
    loadCsv None zero_heap (only ab_c_file) = Ok df /\
    loadCsv None bang_heap (only abc_file) = Undef MissingTerminator.
Proof.
  eexists. split; [vm_compute; reflexivity|].
  split; [reflexivity|]. split; [discriminate|].
  split; vm_compute; reflexivity.
Qed.

(** C2, amended.  With zero-filled fresh memory, loading the file
    "a, b, c" / "1, 2, 3" / "4, 5, 6" returns a table with [rows] 2,
    [cols] 3, the cells 1 2 3 and 4 5 6, the separator string ", " and
    one header string, "abc": the labels one after the other with nothing
    between them. *)
Theorem loadCsv_abc_table (filePtr : option FILE) (h : heap) (fs : file_system) :
  fs CSV_PATH = Some abc_file ->
  zero_filled h ->
  exists df,
    loadCsv filePtr h fs = Ok df /\
    rows df = 2%Z /\ cols df = 3%Z /\
    dataFrame df = Some abc_cells /\
    header_strings df = [str "abc"] /\
    block_string (delim df) = Some CSV_DELIM.
Proof.
  intros Hfs Hz. eexists. split.
  - apply (loadCsv_zero filePtr h fs abc_file
             (line "a, b, c") (line "1, 2, 3") [line "4, 5, 6"] Hfs).
    + reflexivity.
    + exact Hz.
    + vm_compute. lia.
    + repeat constructor.
  - repeat split.
Qed.

Lemma loadCsv_abc_table_witness :
  exists df,
    loadCsv None zero_heap (only abc_file) = Ok df /\
    rows df = 2%Z /\ cols df = 3%Z /\
    dataFrame df = Some abc_cells /\
    header_strings df = [str "abc"] /\
    block_string (delim df) = Some CSV_DELIM.
Proof.
  apply (loadCsv_abc_table None zero_heap (only abc_file) eq_refl).
  intros k i. reflexivity.
Defined.

(** C3.  When the file cannot be opened, [getDFsize] prints a message and
    returns NULL; [createDataFrame] reads [dfSize[0]] through that null
    pointer.  No error value reaches the caller of [loadCsv]. *)
Theorem loadCsv_missing_file (filePtr : option FILE) (h : heap) :
  getDFsize filePtr no_file = Ok None /\
  createDataFrame filePtr h no_file = Undef NullDereference /\
  loadCsv filePtr h no_file = Undef NullDereference.
Proof. repeat split. Qed.

(** ** Tokens and separators *)

Example split_on_abc :
  split_on CSV_DELIM (str "a, b, c") = [str "a"; str "b"; str "c"].
Proof. reflexivity. Qed.





(** ** Memory that is not zero-filled *)

(** C5.  [trimToken] always returns a block of [strlen(token) + 1] bytes
    that starts with the alphanumeric characters of the token, in order,
    and a token without such characters gives the empty string.  But the
    only NUL the function writes is the one at index 0, before the loop:
    the byte after the copied characters is whatever the fresh block held.
    For the token "a" in memory filled with '!', the block is 'a' '!', a
    character array without terminator. *)
Theorem trimToken_terminator (h : heap) (k : nat) (token : bytes) :
  (exists rest,
     trimToken h k token = Ok (alnums token ++ rest) /\
     length (alnums token ++ rest) = length token + 1 /\
     (alnums token = [] -> block_string (alnums token ++ rest) = Some [])) /\
  trimToken bang_heap 0 (str "a") = Ok (str "a!") /\
  block_string (str "a!") = None.
Proof.
  split; [|split; reflexivity].
  eexists. split; [apply trimToken_spec|]. split.
  - rewrite length_app, length_skipn. cbn [length].
    rewrite length_map, length_seq.
    pose proof (alnums_length token). lia.
  - intros E. rewrite E. reflexivity.
Qed.

(** C6.  For the one-line file "a, b" the scan gives 0 rows and 0 columns,
    so [params] is a block of one byte.  The load still appends the label
    "a" to it: with a NUL after the trimmed label, [strncat] writes the
    terminator at index 1 of the one-byte block; without, [strlen] runs off
    the block of the label.  No table comes back, whatever the memory. *)
Theorem loadCsv_header_only (filePtr : option FILE) (h : heap) :
  getDFsize filePtr (only header_only_file) = Ok (Some (0, 0)%Z) /\
  loadCsv filePtr h (only header_only_file) =
  Undef (if is_nul (h 4 1) then OutOfBounds else MissingTerminator).
Proof.
  split; [reflexivity|].
  rewrite (loadCsv_spec filePtr h _ header_only_file eq_refl).
  change (lines header_only_file) with [header_only_file].
  cbv beta iota zeta.
  change (dimensions header_only_file) with (0%Z, 0%Z).
  change (tokens CSV_DELIM (cstr header_only_file)) with [str "a"; line "b"].
  cbn [fst snd bind store_labels]. unfold store_label.
  rewrite trimToken_spec.
  change (alnums (str "a")) with (str "a").
  cbn [length str list_ascii_of_string seq map skipn app bind].
  cbn [block_string]. change (is_nul "a") with false. cbv iota.
  change (fresh_params h (Z.to_nat 0)) with [NUL].
  change (S PARAMS_ALLOC) with 4.
  destruct (is_nul (h 4 1)); reflexivity.
Qed.

(** C7.  The first data row of "a" / "1" / "2, 3" has one token, so every
    row of the matrix is a block of one cell.  The second row has two
    tokens, and the inner loop has no test on [col]: the value 3 is stored
    at index 1 of a one-cell row.  The excess token is written outside the
    matrix, not dropped, and no table comes back, whatever the memory
    holds.  The other half of the sentence holds: a shorter row leaves its
    last cells as they were allocated. *)
Theorem loadCsv_wider_row (filePtr : option FILE) (h : heap) :
  getDFsize filePtr (only wider_row_file) = Ok (Some (2, 1)%Z) /\
  store_cell [[Some (Finite 1)]; [Some (Finite 2)]] 1 1 (atof (line "3")) =
    Undef OutOfBounds /\
  data_loop 9 CSV_DELIM (line "1" ++ line "2, 3") 0 (empty_frame 2 1) =
    Undef OutOfBounds /\
  (exists f, loadCsv filePtr h (only wider_row_file) = Undef f) /\
  loadCsv filePtr zero_heap (only wider_row_file) = Undef OutOfBounds /\
  exists df,
    loadCsv filePtr zero_heap (only shorter_row_file) = Ok df /\
    dataFrame df =
    Some [[Some (Finite 1); Some (Finite 2)]; [Some (Finite 3); None]].
Proof.
  split; [reflexivity|]. split; [reflexivity|]. split; [reflexivity|].
  split; [|split; [reflexivity|eexists; split; reflexivity]].
  rewrite (loadCsv_spec filePtr h _ wider_row_file eq_refl).
  change (lines wider_row_file) with [line "a"; line "1"; line "2, 3"].
  cbv beta iota zeta.
  change (dimensions wider_row_file) with (2%Z, 1%Z). cbn [fst snd].
  change (store_rows CSV_DELIM [line "1"; line "2, 3"] 0 (empty_frame 2 1))
    with (@Undef (list (list (option number))) OutOfBounds).
  destruct (store_labels _ _ _ _) as [p|f|] eqn:E; cbn [bind].
  - exists OutOfBounds. reflexivity.
  - exists f. reflexivity.
  - exfalso. eapply returns_store_labels. exact E.
Qed.

(** ** Tokens that are not numbers *)

Example float_literal_yes : map float_literal [str "1"; str "-2.5e3"; str ".5"]
                            = [true; true; true].
Proof. reflexivity. Qed.

Example float_literal_no : map float_literal [str "7x"; str "abc"; str ""; str "1e"]
                           = [false; false; false; false].
Proof. reflexivity. Qed.

Lemma strtod_value_without_number (t : bytes) :
  numeric_start t = false -> strtod_value t = zero_value.
Proof.
  unfold numeric_start, strtod_value.
  destruct (read_sign (skip_space t)) as [neg r]. cbn [snd].
  destruct r as [|c r']; [reflexivity|].
  intros H.
  apply orb_false_iff in H. destruct H as [H Hn].
  apply orb_false_iff in H. destruct H as [H Hi].
  apply orb_false_iff in H. destruct H as [Hd Hp].
  cbn [has_prefix_nocase str list_ascii_of_string]. rewrite Hi, Hn. cbn [andb].
  assert (H0 : Ascii.eqb c "0" = false).
  { destruct (Ascii.eqb_spec c "0") as [->|]; [discriminate|reflexivity]. }
  unfold read_hexadecimal. rewrite H0. cbn [andb].
  replace (match r' with [] => None | _ :: _ => None end) with (@None Q)
    by (destruct r'; reflexivity).
  unfold read_decimal, read_mantissa. cbn [read_digits]. rewrite Hd, Hp.
  reflexivity.
Qed.

Lemma atof_without_number (t : bytes) :
  numeric_start t = false -> to_float (atof t) = zero_value.
Proof.
  intros H. unfold atof. rewrite (strtod_value_without_number t H).
  reflexivity.
Qed.

(** C8, counterexample.  The token "7x" is not a floating-point literal,
    and the cell it is stored in holds 7, not 0: [atof] converts the
    longest prefix that is a number. *)
Lemma prefix_number_not_zero :
  float_literal (str "7x") = false /\
  tokens CSV_DELIM (cstr (line "7x, 1")) = [str "7x"; line "1"] /\
  (exists df,
     loadCsv None zero_heap (only prefix_number_file) = Ok df /\
     dataFrame df = Some [[Some (Finite 7); Some (Finite 1)]]) /\
  Finite 7 <> zero_value.
Proof.
  split; [reflexivity|]. split; [reflexivity|].
  split; [eexists; split; reflexivity|]. discriminate.
Qed.

Lemma filled_row_nth (c : nat) (ts : list bytes) (j : nat) (t : bytes) :
  nth_error ts j = Some t ->
  nth_error (filled_row c ts) j = Some (Some (to_float (atof t))).
Proof.
  intros H. unfold filled_row, values.
  rewrite nth_error_app1.
  - apply map_nth_error with (f := fun t => Some (to_float (atof t))). exact H.
  - rewrite length_map. apply nth_error_Some. congruence.
Qed.

(** C8, amended.  Take a file of at most [INT_MAX] bytes, loaded with
    zero-filled fresh memory, whose header labels fit [params] and whose
    data lines have no more tokens than the first.  Whatever its data
    tokens are, the load returns a table, and the cell of the [j]-th token
    [t] of the [i]-th data line holds [(float) atof(t)]: the value of the
    longest prefix of [t] that is a number, rounded to a double and then
    to a float.  That is 0.0 when [t], after white space and a sign, does
    not go on with a digit, a point or the letters i, n. *)
Theorem loadCsv_token_value (filePtr : option FILE) (h : heap) (fs : file_system)
  (content header first : bytes) (others : list bytes)
  (i j : nat) (l t : bytes) :
  fs CSV_PATH = Some content ->
  (Z.of_nat (length content) <= INT_MAX)%Z ->
  lines content = header :: first :: others ->
  zero_filled h ->
  length (labels (line_tokens header)) <= length (line_tokens first) ->
  Forall (fun l => length (line_tokens l) <= length (line_tokens first)) others ->
  nth_error (first :: others) i = Some l ->
  nth_error (line_tokens l) j = Some t ->
  exists df frame r,
    loadCsv filePtr h fs = Ok df /\
    dataFrame df = Some frame /\
    nth_error frame i = Some r /\
    nth_error r j = Some (Some (to_float (atof t))) /\
    (numeric_start t = false -> nth_error r j = Some (Some zero_value)).
Proof.
  intros Hfs _ Hl Hz Hfit Hw Hi Hj.
  exists (loaded header first others).
  exists (map (fun l => filled_row (length (line_tokens first)) (line_tokens l))
            (first :: others)).
  exists (filled_row (length (line_tokens first)) (line_tokens l)).
  split; [apply (loadCsv_zero filePtr h fs content); assumption|].
  split; [reflexivity|].
  split.
  { apply map_nth_error
      with (f := fun l => filled_row (length (line_tokens first)) (line_tokens l)).
    exact Hi. }
  split.
  - apply filled_row_nth. exact Hj.
  - intros Hn. rewrite <- (atof_without_number t Hn).
    apply filled_row_nth. exact Hj.
Qed.

Lemma loadCsv_token_value_witness :
  exists df frame r,
    loadCsv None zero_heap (only no_number_file) = Ok df /\
    dataFrame df = Some frame /\
    nth_error frame 0 = Some r /\
    nth_error r 0 = Some (Some (to_float (atof (str "x")))) /\
    (numeric_start (str "x") = false -> nth_error r 0 = Some (Some zero_value)).
Proof.
  apply (loadCsv_token_value None zero_heap (only no_number_file)
           no_number_file (line "a, b") (line "x, 7") [] 0 0 (line "x, 7")).
  - reflexivity.
  - vm_compute. discriminate.
  - reflexivity.
  - intros k i. reflexivity.
  - vm_compute. lia.
  - constructor.
  - reflexivity.
  - reflexivity.
Defined.

(** C9.  With one stale byte in fresh memory, '!' at offset 2 of the
    block, [trimToken] of "a!b?" returns a block that holds the string
    "ab!": the two letters, then the stale byte, then a NUL that was there
    before.  [trimToken] of that string, in a zero-filled block, returns
    "ab".  The second application changes the string the first returned. *)
Theorem trimToken_not_idempotent :
  exists blk blk',
    trimToken stale_heap 0 (str "a!b?") = Ok blk /\
    block_string blk = Some (str "ab!") /\
    trimToken stale_heap 1 (str "ab!") = Ok blk' /\
    block_string blk' = Some (str "ab") /\
    str "ab" <> str "ab!".
Proof.
  eexists. eexists. split; [vm_compute; reflexivity|].
  split; [reflexivity|]. split; [vm_compute; reflexivity|].
  split; [reflexivity|]. discriminate.
Qed.

(** C10.  Two runs of [loadCsv] over the same file "a, b" / "1, 2, 3",
    with any [FILE *] arguments: when the fresh block of [params] is
    zero-filled the table has the header string "ab", and when its first
    byte is a stale 'x' the table has the header string "xab".  Only the
    last byte of [params] is initialised before the labels are appended,
    so the tables differ though the file is the same. *)
Theorem loadCsv_depends_on_memory (filePtr filePtr' : option FILE) :
  exists df df',
    loadCsv filePtr zero_heap (only wide_data_file) = Ok df /\
    loadCsv filePtr' stale_params_heap (only wide_data_file) = Ok df' /\
    block_string (params df) = Some (str "ab") /\
    block_string (params df') = Some (str "xab") /\
    dataFrame df = dataFrame df' /\
    df <> df'.
Proof.
  eexists. eexists. split; [vm_compute; reflexivity|].
  split; [vm_compute; reflexivity|].
  split; [reflexivity|]. split; [reflexivity|].
  split; [reflexivity|]. discriminate.
Qed.

(** * Further properties of the code *)

(** ** The lines [fgets] returns *)

Lemma fgets_chars_split (s : bytes) :
  forall n, fst (fgets_chars n s) ++ snd (fgets_chars n s) = s.
Proof.
  induction s as [|c s IH]; intros n.
  - destruct n; reflexivity.
  - destruct n as [|n]; [reflexivity|].
    rewrite fgets_chars_cons. destruct (Ascii.eqb c LF); [reflexivity|].
    specialize (IH n). destruct (fgets_chars n s) as [l r].
    cbn [fst snd app] in *. rewrite IH. reflexivity.
Qed.

Lemma fgets_chars_length (s : bytes) :
  forall n, length (fst (fgets_chars n s)) <= n.
Proof.
  induction s as [|c s IH]; intros n.
  - destruct n; simpl; lia.
  - destruct n as [|n]; [simpl; lia|].
    rewrite fgets_chars_cons. destruct (Ascii.eqb c LF); [simpl; lia|].
    specialize (IH n). destruct (fgets_chars n s) as [l r].
    cbn [fst length] in *. lia.
Qed.

Lemma fgets_split (s b r : bytes) :
  fgets BUFFER_SIZE s = Some (b, r) ->
  b ++ r = s /\ b <> [] /\ length b <= MAX_LINE.
Proof.
  intros H. pose proof (fgets_shrinks s b r H) as Hs.
  apply fgets_Some in H. destruct H as [_ H].
  pose proof (fgets_chars_split s (BUFFER_SIZE - 1)) as Hsplit.
  pose proof (fgets_chars_length s (BUFFER_SIZE - 1)) as Hlen.
  rewrite H in Hsplit, Hlen. cbn [fst snd] in *.
  split; [exact Hsplit|]. split; [|exact Hlen].
  intros ->. cbn [app] in Hsplit. subst r. lia.
Qed.

Lemma lines_ind (P : bytes -> list bytes -> Prop) :
  (forall s, fgets BUFFER_SIZE s = None -> P s []) ->
  (forall s b r, fgets BUFFER_SIZE s = Some (b, r) ->
                 P r (lines r) -> P s (b :: lines r)) ->
  forall s, P s (lines s).
Proof.
  intros Hnil Hcons s.
  remember (length s) as n eqn:En. revert s En.
  induction n as [n IH] using lt_wf_ind. intros s En.
  rewrite lines_step.
  destruct (fgets BUFFER_SIZE s) as [[b r]|] eqn:E.
  - apply Hcons; [exact E|].
    apply (IH (length r)); [|reflexivity].
    apply fgets_shrinks in E. lia.
  - apply Hnil. exact E.
Qed.

(** The lines are consecutive pieces of the file: nothing is skipped and
    nothing is read twice. *)
Lemma lines_concat (s : bytes) : concat (lines s) = s.
Proof.
  apply (lines_ind (fun s ls => concat ls = s)).
  - intros s0 H. unfold fgets in H. destruct s0; [reflexivity|discriminate].
  - intros s0 b r H IH. cbn [concat]. rewrite IH.
    apply fgets_split in H. apply H.
Qed.

Lemma lines_Forall (s : bytes) :
  Forall (fun l => l <> [] /\ length l <= MAX_LINE) (lines s).
Proof.
  apply (lines_ind (fun _ ls => Forall (fun l => l <> [] /\ length l <= MAX_LINE) ls)).
  - intros. constructor.
  - intros s0 b r H IH. constructor; [|exact IH].
    apply fgets_split in H. split; apply H.
Qed.

Lemma lines_length (s : bytes) : length (lines s) <= length s.
Proof.
  rewrite <- (lines_concat s) at 2.
  pose proof (lines_Forall s) as H.
  induction H as [|l ls [Hne _] _ IH]; [simpl; lia|].
  cbn [concat length]. rewrite length_app.
  destruct l; [contradiction|]. cbn [length]. lia.
Qed.

(** ** How many tokens a string can hold *)

Lemma tokens_count (delim s : bytes) :
  2 * length (tokens delim s) <= length s + 1 /\
  (hd [] (fields delim s) = [] -> 2 * length (tokens delim s) <= length s).
Proof.
  unfold tokens. induction s as [|c s [IH1 IH2]]; [simpl; split; lia|].
  cbn [fields]. destruct (is_delim delim c).
  - cbn [filter nonempty hd length]. split; [lia|intros _; lia].
  - destruct (fields delim s) as [|f fs] eqn:E.
    + exfalso. eapply fields_not_nil. exact E.
    + cbn [hd] in IH2. cbn [filter nonempty hd length].
      split; [|discriminate].
      destruct f as [|x f].
      * cbn [filter nonempty] in IH1, IH2. specialize (IH2 eq_refl). lia.
      * cbn [filter nonempty length] in IH1. lia.
Qed.

(** ** Bounds on the dimensions *)

Lemma dimensions_bounds (content : bytes) :
  (0 <= fst (dimensions content) <= Z.of_nat (length content))%Z /\
  (0 <= snd (dimensions content) <= MAX_COLS)%Z /\
  (fst (dimensions content) = 0%Z -> snd (dimensions content) = 0%Z).
Proof.
  unfold dimensions.
  pose proof (lines_length content) as Hlen.
  pose proof (lines_Forall content) as Hall.
  destruct (lines content) as [|l0 [|l ls]]; cbn [fst snd];
    try (unfold MAX_COLS; repeat split; lia).
  inversion Hall as [|? ? _ Hall']. inversion Hall' as [|? ? [_ Hl] _]. subst.
  pose proof (tokens_count CSV_DELIM (cstr l)) as [Ht _].
  pose proof (cstr_length l) as Hc.
  unfold MAX_LINE, MAX_COLS in *. cbn [length] in *.
  repeat split; try lia.
Qed.

(** X1.  For a file of at most [INT_MAX] bytes that can be opened,
    [getDFsize] returns a pair: the number of rows is at most the number
    of bytes of the file, so the [int] that counts the lines does not
    overflow; the number of columns is at most 512 (a buffer of 1023
    characters holds no more tokens); and there are no columns when there
    are no rows. *)
Theorem getDFsize_bounds (filePtr : option FILE) (fs : file_system)
  (content : bytes) :
  fs CSV_PATH = Some content ->
  (Z.of_nat (length content) <= INT_MAX)%Z ->
  exists r c,
    getDFsize filePtr fs = Ok (Some (r, c)) /\
    (0 <= r <= Z.of_nat (length content))%Z /\
    (r <= INT_MAX)%Z /\
    (0 <= c <= MAX_COLS)%Z /\
    (r = 0%Z -> c = 0%Z).
Proof.
  intros Hfs Hsize.
  exists (fst (dimensions content)), (snd (dimensions content)).
  split.
  - rewrite (getDFsize_spec filePtr fs content Hfs).
    destruct (dimensions content); reflexivity.
  - destruct (dimensions_bounds content) as [Hr [Hc Hz]].
    repeat split; try apply Hr; try apply Hc; try exact Hz. lia.
Qed.

Lemma getDFsize_bounds_witness :
  exists r c,
    getDFsize None (only abc_file) = Ok (Some (r, c)) /\
    (0 <= r <= 24)%Z /\ (r <= INT_MAX)%Z /\
    (0 <= c <= MAX_COLS)%Z /\ (r = 0%Z -> c = 0%Z).
Proof.
  apply (getDFsize_bounds None (only abc_file) abc_file).
  - reflexivity.
  - vm_compute. discriminate.
Defined.

(** ** Rows with too many tokens *)

Lemma store_cells_overflow (ts : list bytes) :
  forall frame row col r,
    nth_error frame row = Some r ->
    col <= length r ->
    length r < col + length ts ->
    store_cells frame row col ts = Undef OutOfBounds.
Proof.
  induction ts as [|t ts IH]; intros frame row col r Hrow Hcol Hlen.
  - cbn [length] in Hlen. lia.
  - cbn [store_cells]. unfold store_cell. rewrite Hrow.
    destruct (Nat.lt_ge_cases col (length r)) as [Hin|Hout].
    + destruct (store_in_bounds r col (Some (to_float (atof t))) Hin) as [r' Hr'].
      rewrite Hr'. cbn [defined bind].
      assert (Hrow' : row < length frame)
        by (apply nth_error_Some; congruence).
      destruct (store_in_bounds frame row r' Hrow') as [frame' Hf'].
      rewrite Hf'. cbn [defined bind].
      apply (IH frame' row (S col) r').
      * apply (store_Some_here _ _ _ _ Hf').
      * rewrite (store_Some_length _ _ _ _ Hr'). lia.
      * rewrite (store_Some_length _ _ _ _ Hr'). cbn [length] in Hlen. lia.
    + rewrite (store_None r col _ Hout). reflexivity.
Qed.

Lemma store_cell_fault (frame : list (list (option number))) (row col : nat)
  (v : number) (f : fault) :
  store_cell frame row col v = Undef f -> f = OutOfBounds.
Proof.
  unfold store_cell. destruct (nth_error frame row) as [r|].
  - destruct (store r col (Some v)) as [r'|]; cbn [defined bind].
    + destruct (store frame row r'); cbn [defined]; intros H; inversion H.
      reflexivity.
    + intros H. inversion H. reflexivity.
  - intros H. inversion H. reflexivity.
Qed.

Lemma store_cells_fault (ts : list bytes) :
  forall frame row col f,
    store_cells frame row col ts = Undef f -> f = OutOfBounds.
Proof.
  induction ts as [|t ts IH]; intros frame row col f H; [discriminate|].
  cbn [store_cells] in H.
  destruct (store_cell frame row col (to_float (atof t))) as [frame'|f'|] eqn:E;
    cbn [bind] in H.
  - apply (IH _ _ _ _ H).
  - inversion H. subst. apply (store_cell_fault _ _ _ _ _ E).
  - discriminate.
Qed.

(** A line with more tokens than a row has cells stops the data part,
    wherever it stands. *)
Lemma store_rows_overflow (c : nat) (ls : list bytes) :
  forall frame row,
    rectangular (row + length ls) c frame ->
    Exists (fun l => c < length (line_tokens l)) ls ->
    store_rows CSV_DELIM ls row frame = Undef OutOfBounds.
Proof.
  induction ls as [|l ls IH]; intros frame row Hf Hex; [inversion Hex|].
  cbn [store_rows]. fold (line_tokens l).
  assert (Hrow : exists r, nth_error frame row = Some r /\ length r = c).
  { destruct Hf as [Hlen Hall].
    destruct (nth_error frame row) as [r|] eqn:E.
    - exists r. split; [reflexivity|].
      rewrite Forall_forall in Hall. apply Hall. apply (nth_error_In _ _ E).
    - apply nth_error_None in E. cbn [length] in Hlen. lia. }
  destruct Hrow as [r [Hr Hrc]].
  destruct (store_cells frame row 0 (line_tokens l)) as [frame'|f|] eqn:E;
    cbn [bind].
  - apply IH.
    + replace (S row + length ls) with (row + length (l :: ls))
        by (cbn [length]; lia).
      apply (store_cells_Ok _ _ _ _ _ _ _ E Hf).
    + inversion Hex as [? ? Hl|? ? Hls]; subst; [|exact Hls].
      rewrite (store_cells_overflow (line_tokens l) frame row 0 r Hr) in E;
        [discriminate|lia|lia].
  - f_equal. apply (store_cells_fault _ _ _ _ _ E).
  - exfalso. eapply returns_store_cells. exact E.
Qed.

Lemma dimensions_lines (content header : bytes) (ls : list bytes) :
  lines content = header :: ls ->
  fst (dimensions content) = Z.of_nat (length ls) /\
  snd (dimensions content) =
  Z.of_nat (match ls with [] => 0 | l :: _ => length (line_tokens l) end).
Proof.
  intros H. unfold dimensions. rewrite H.
  destruct ls as [|l ls']; split; reflexivity.
Qed.

(** X3.  When a data line has more tokens than the first data line, the
    load reaches undefined behaviour before it returns, whatever fresh
    memory holds: the inner loop writes [dataFrame[row][col]] with no test
    of [col], so a cell past the end of the row's block is written. *)
Theorem loadCsv_row_too_wide (filePtr : option FILE) (h : heap) (fs : file_system)
  (content header first : bytes) (others : list bytes) :
  fs CSV_PATH = Some content ->
  lines content = header :: first :: others ->
  Exists (fun l => length (line_tokens first) < length (line_tokens l)) others ->
  exists f, loadCsv filePtr h fs = Undef f.
Proof.
  intros Hfs Hl Hex.
  rewrite (loadCsv_spec filePtr h fs content Hfs). rewrite Hl. cbv zeta.
  destruct (dimensions_lines content header _ Hl) as [Hr Hc].
  rewrite Hr, Hc.
  rewrite (store_rows_overflow (length (line_tokens first)) (first :: others)).
  - destruct (store_labels _ _ _ _) as [p|f|] eqn:E; cbn [bind].
    + eexists. reflexivity.
    + eexists. reflexivity.
    + exfalso. eapply returns_store_labels. exact E.
  - cbn [Nat.add]. rewrite <- (Nat2Z.id (length (first :: others))) at 1.
    rewrite <- (Nat2Z.id (length (line_tokens first))) at 1.
    apply empty_frame_rectangular.
  - right. exact Hex.
Qed.

Lemma loadCsv_row_too_wide_witness :
  exists f, loadCsv None zero_heap (only wider_row_file) = Undef f.
Proof.
  apply (loadCsv_row_too_wide None zero_heap (only wider_row_file)
           wider_row_file (line "a") (line "1") [line "2, 3"]).
  - reflexivity.
  - reflexivity.
  - left. vm_compute. lia.
Defined.

(** ** What [createDataFrame] leaves in [params] *)

Lemma nth_error_malloc (h : heap) (k n i : nat) :
  i < n -> nth_error (malloc h k n) i = Some (h k i).
Proof.
  intros H. unfold malloc.
  rewrite (map_nth_error (h k) i (seq 0 n) (d := i)); [reflexivity|].
  rewrite nth_error_nth' with (d := 0) by (rewrite length_seq; exact H).
  rewrite seq_nth by exact H. reflexivity.
Qed.

(** X6.  For a file that can be opened, [createDataFrame] returns a
    structure with the dimensions of the scan and no matrix yet.  Of the
    [cols + 1] bytes of [params] only the last is written, with NUL: byte
    [i] for [i < cols] is still what the fresh block held, so [params] is
    the empty string only if the memory happened to start with a NUL. *)
Theorem createDataFrame_params (filePtr : option FILE) (h : heap)
  (fs : file_system) (content : bytes) :
  fs CSV_PATH = Some content ->
  exists df,
    createDataFrame filePtr h fs = Ok df /\
    getDFsize filePtr fs = Ok (Some (rows df, cols df)) /\
    dataFrame df = None /\
    length (params df) = Z.to_nat (cols df) + 1 /\
    nth_error (params df) (Z.to_nat (cols df)) = Some NUL /\
    (forall i, i < Z.to_nat (cols df) ->
               nth_error (params df) i = Some (h PARAMS_ALLOC i)).
Proof.
  intros Hfs. eexists. split; [apply (createDataFrame_spec _ h fs content Hfs)|].
  cbn [rows cols params dataFrame].
  split; [rewrite (getDFsize_spec filePtr fs content Hfs);
          destruct (dimensions content); reflexivity|].
  split; [reflexivity|].
  unfold fresh_params. split; [|split].
  - rewrite length_app, malloc_length. reflexivity.
  - rewrite nth_error_app2 by (rewrite malloc_length; lia).
    rewrite malloc_length, Nat.sub_diag. reflexivity.
  - intros i Hi. rewrite nth_error_app1 by (rewrite malloc_length; exact Hi).
    apply nth_error_malloc. exact Hi.
Qed.

Lemma createDataFrame_params_witness :
  exists df,
    createDataFrame None bang_heap (only abc_file) = Ok df /\
    getDFsize None (only abc_file) = Ok (Some (rows df, cols df)) /\
    dataFrame df = None /\
    length (params df) = Z.to_nat (cols df) + 1 /\
    nth_error (params df) (Z.to_nat (cols df)) = Some NUL /\
    (forall i, i < Z.to_nat (cols df) ->
               nth_error (params df) i = Some (bang_heap PARAMS_ALLOC i)).
Proof.
  apply (createDataFrame_params None bang_heap (only abc_file) abc_file).
  reflexivity.
Defined.

(** ** The dimensions of a well-formed file *)

Lemma filled_row_length (c : nat) (ts : list bytes) :
  length ts <= c -> length (filled_row c ts) = c.
Proof.
  intros H. unfold filled_row, values.
  rewrite length_app, length_map, repeat_length. lia.
Qed.

(** X16.  Take a well-formed file of at most [INT_MAX] bytes with R data
    lines and C words in the first of them, whose header labels have at
    most C alphanumeric characters in all and whose data lines have at
    most C words each.  Loaded with zero-filled fresh memory it gives a
    table with [rows] R and [cols] C, and the matrix has R rows of C
    cells. *)
Theorem loadCsv_dimensions_when_fits (filePtr : option FILE) (h : heap)
  (fs : file_system) (header first : list bytes) (others : list (list bytes)) :
  fs CSV_PATH = Some (csv_file (header :: first :: others)) ->
  well_formed header first others ->
  (Z.of_nat (length (csv_file (header :: first :: others))) <= INT_MAX)%Z ->
  zero_filled h ->
  header_fits header first ->
  rows_fit first others ->
  exists df frame,
    loadCsv filePtr h fs = Ok df /\
    rows df = Z.of_nat (S (length others)) /\
    cols df = Z.of_nat (length first) /\
    dataFrame df = Some frame /\
    rectangular (S (length others)) (length first) frame.
Proof.
  intros Hfs WF _ Hz Hfit Hwd. eexists. eexists.
  split; [apply (wf_loaded header first others WF); assumption|].
  unfold loaded. cbn [rows cols dataFrame]. rewrite length_map.
  rewrite (wf_first_width header first others WF).
  repeat split.
  - rewrite length_map. cbn [length]. rewrite length_map. reflexivity.
  - pose proof (wf_words _ _ _ WF) as Hw. pose proof (wf_nonempty _ _ _ WF) as Hn.
    inversion Hw as [|? ? _ Hw']. inversion Hw' as [|? ? Hwf Hwo]. subst.
    inversion Hn as [|? ? _ Hn']. inversion Hn' as [|? ? Hnf Hno]. subst.
    change (csv_line first :: map csv_line others)
      with (map csv_line (first :: others)).
    rewrite map_map. apply Forall_map.
    assert (Hall : Forall (fun ws => length ws <= length first) (first :: others))
      by (constructor; [lia|exact Hwd]).
    rewrite Forall_forall in *. intros ws Hin.
    apply filled_row_length.
    rewrite line_tokens_width.
    + apply Hall. exact Hin.
    + apply Hw'. exact Hin.
    + apply Hn'. exact Hin.
Qed.

Lemma loadCsv_dimensions_when_fits_witness :
  exists df frame,
    loadCsv None zero_heap (only abc_file) = Ok df /\
    rows df = 2%Z /\ cols df = 3%Z /\
    dataFrame df = Some frame /\
    rectangular 2 3 frame.
Proof.
  apply (loadCsv_dimensions_when_fits None zero_heap (only abc_file)
           [str "a"; str "b"; str "c"] [str "1"; str "2"; str "3"]
           [[str "4"; str "5"; str "6"]]).
  - reflexivity.
  - constructor.
    + repeat constructor.
    + repeat constructor; discriminate.
    + unfold fits_buffer, BUFFER_SIZE. repeat constructor; simpl; lia.
  - vm_compute. discriminate.
  - intros k i. reflexivity.
  - unfold header_fits. simpl. lia.
  - repeat constructor.
Defined.

(** ** The header of a well-formed file *)



(** ** Lines that [fgets] does not return whole *)







(** ** Blank lines *)



(** ** The newline [strtok] leaves on the last token *)

Lemma skip_space_newline (s : bytes) :
  skip_space (s ++ [LF]) =
  match skip_space s with
  | [] => []
  | c :: r => (c :: r) ++ [LF]
  end.
Proof.
  induction s as [|c s IH]; [reflexivity|].
  cbn [app skip_space]. destruct (isspace c); [exact IH|reflexivity].
Qed.

Lemma read_sign_newline (s : bytes) :
  read_sign (s ++ [LF]) = (fst (read_sign s), snd (read_sign s) ++ [LF]).
Proof.
  destruct s as [|c s]; [reflexivity|].
  cbn [app read_sign].
  destruct (Ascii.eqb c "-"); [reflexivity|].
  destruct (Ascii.eqb c "+"); reflexivity.
Qed.

Lemma read_digits_newline (isd : ascii -> bool) (val : ascii -> Z) (base : Z)
  (s : bytes) :
  isd LF = false ->
  forall acc n,
    read_digits isd val base (s ++ [LF]) acc n =
    (fst (read_digits isd val base s acc n),
     snd (read_digits isd val base s acc n) ++ [LF]).
Proof.
  intros HLF. induction s as [|c s IH]; intros acc n.
  - cbn [app read_digits]. rewrite HLF. reflexivity.
  - cbn [app read_digits]. destruct (isd c); [apply IH|reflexivity].
Qed.

Lemma read_mantissa_newline (isd : ascii -> bool) (val : ascii -> Z) (base : Z)
  (s : bytes) :
  isd LF = false ->
  read_mantissa isd val base (s ++ [LF]) =
  (fst (read_mantissa isd val base s),
   snd (read_mantissa isd val base s) ++ [LF]).
Proof.
  intros HLF. unfold read_mantissa.
  rewrite (read_digits_newline isd val base s HLF).
  destruct (read_digits isd val base s 0 0) as [[m1 n1] r1]. cbn [fst snd].
  destruct r1 as [|c r2]; [reflexivity|].
  cbn [app]. destruct (Ascii.eqb c "."); [|reflexivity].
  rewrite (read_digits_newline isd val base r2 HLF).
  destruct (read_digits isd val base r2 m1 0) as [[m2 n2] r3]. reflexivity.
Qed.

Lemma read_exponent_newline (lo up : ascii) (s : bytes) :
  Ascii.eqb LF lo = false -> Ascii.eqb LF up = false ->
  read_exponent lo up (s ++ [LF]) = read_exponent lo up s.
Proof.
  intros Hlo Hup. destruct s as [|c s].
  - cbn [app read_exponent]. rewrite Hlo, Hup. reflexivity.
  - cbn [app read_exponent].
    destruct (Ascii.eqb c lo || Ascii.eqb c up); [|reflexivity].
    rewrite read_sign_newline. destruct (read_sign s) as [neg r].
    cbn [fst snd].
    rewrite (read_digits_newline isdigit digit_value 10 r eq_refl).
    destruct (read_digits isdigit digit_value 10 r 0 0) as [[e n] r'].
    reflexivity.
Qed.

Lemma read_decimal_newline (s : bytes) :
  read_decimal (s ++ [LF]) = read_decimal s.
Proof.
  unfold read_decimal.
  rewrite (read_mantissa_newline isdigit digit_value 10 s eq_refl).
  destruct (read_mantissa isdigit digit_value 10 s) as [[[m n] nfrac] r].
  cbn [fst snd]. rewrite read_exponent_newline by reflexivity. reflexivity.
Qed.

Lemma read_hexadecimal_newline (s : bytes) :
  read_hexadecimal (s ++ [LF]) = read_hexadecimal s.
Proof.
  destruct s as [|z [|x s]].
  - reflexivity.
  - cbn [app read_hexadecimal].
    change (Ascii.eqb LF "x" || Ascii.eqb LF "X") with false.
    rewrite andb_false_r. reflexivity.
  - cbn [app read_hexadecimal].
    destruct (Ascii.eqb z "0" && (Ascii.eqb x "x" || Ascii.eqb x "X"));
      [|reflexivity].
    rewrite (read_mantissa_newline isxdigit xdigit_value 16 s eq_refl).
    destruct (read_mantissa isxdigit xdigit_value 16 s) as [[[m n] nfrac] r].
    cbn [fst snd]. rewrite read_exponent_newline by reflexivity. reflexivity.
Qed.

Lemma has_prefix_nocase_newline (p : bytes) :
  Forall (fun a => Ascii.eqb a LF = false) p ->
  forall s, has_prefix_nocase p (s ++ [LF]) = has_prefix_nocase p s.
Proof.
  induction 1 as [|a p Ha Hp IH]; intros s.
  - destruct s; reflexivity.
  - destruct s as [|b s].
    + cbn [app has_prefix_nocase]. change (lower LF) with LF.
      rewrite Ha. reflexivity.
    + cbn [app has_prefix_nocase]. rewrite IH. reflexivity.
Qed.

(** The value [atof] gives does not change when a newline follows the
    token. *)
Lemma strtod_value_newline (t : bytes) :
  strtod_value (t ++ [LF]) = strtod_value t.
Proof.
  unfold strtod_value. rewrite skip_space_newline.
  destruct (skip_space t) as [|c r]; [reflexivity|].
  rewrite read_sign_newline.
  destruct (read_sign (c :: r)) as [neg r']. cbn [fst snd].
  rewrite !has_prefix_nocase_newline by (repeat constructor).
  rewrite read_hexadecimal_newline, read_decimal_newline. reflexivity.
Qed.

Lemma atof_newline (t : bytes) : atof (t ++ [LF]) = atof t.
Proof. unfold atof. rewrite strtod_value_newline. reflexivity. Qed.

Lemma values_newline_last (ws : list bytes) :
  ws <> [] -> values (newline_last ws) = values ws.
Proof.
  unfold values. induction ws as [|w ws IH]; [contradiction|]. intros _.
  cbn [newline_last]. destruct ws as [|w' ws'].
  - cbn [map]. rewrite atof_newline. reflexivity.
  - cbn [map] in *. rewrite IH by discriminate. reflexivity.
Qed.

(** X10.  For a well-formed file of at most [INT_MAX] bytes that fits,
    loaded with zero-filled fresh memory, the matrix holds, row by row and
    in order, for each word of the file the [float] nearest to the
    [double] that [atof] gives for it; a row with fewer words than the
    first data row ends with cells that were never written.  The newline
    that [strtok] leaves on the last token of a line changes no value. *)
Theorem loadCsv_cells_of_words (filePtr : option FILE) (h : heap)
  (fs : file_system) (header first : list bytes) (others : list (list bytes)) :
  fs CSV_PATH = Some (csv_file (header :: first :: others)) ->
  well_formed header first others ->
  (Z.of_nat (length (csv_file (header :: first :: others))) <= INT_MAX)%Z ->
  zero_filled h ->
  header_fits header first ->
  rows_fit first others ->
  exists df,
    loadCsv filePtr h fs = Ok df /\
    dataFrame df =
    Some (map (fun ws => map (fun w => Some (to_float (atof w))) ws
                         ++ repeat None (length first - length ws))
            (first :: others)).
Proof.
  intros Hfs WF _ Hz Hfit Hwd. eexists.
  split; [apply (wf_loaded header first others WF); assumption|].
  unfold loaded. cbn [dataFrame]. f_equal.
  rewrite (wf_first_width header first others WF).
  change (csv_line first :: map csv_line others)
    with (map csv_line (first :: others)).
  rewrite map_map. apply map_ext_in. intros ws Hin.
  pose proof (wf_words _ _ _ WF) as Hw. pose proof (wf_nonempty _ _ _ WF) as Hn.
  inversion Hw as [|? ? _ Hw']. inversion Hn as [|? ? _ Hn']. subst.
  rewrite Forall_forall in Hw', Hn'.
  unfold filled_row.
  rewrite (line_tokens_csv_line ws (Hw' ws Hin)).
  rewrite (values_newline_last ws (Hn' ws Hin)).
  rewrite (newline_last_length ws (Hn' ws Hin)). reflexivity.
Qed.

Lemma loadCsv_cells_of_words_witness :
  exists df,
    loadCsv None zero_heap (only rounded_cells_file) = Ok df /\
    dataFrame df =
    Some [[Some (Finite (13421773 # 134217728)); Some (Finite 16777216)];
          [Some (Infinity false); None]].
Proof.
  apply (loadCsv_cells_of_words None zero_heap (only rounded_cells_file)
           [str "a"; str "b"] [str "0.1"; str "16777217"] [[str "1e39"]]).
  - reflexivity.
  - constructor.
    + repeat constructor.
    + repeat constructor; discriminate.
    + unfold fits_buffer, BUFFER_SIZE. repeat constructor; simpl; lia.
  - vm_compute. discriminate.
  - intros k i. reflexivity.
  - unfold header_fits. simpl. lia.
  - repeat constructor.
Defined.

(** ** A last line without newline *)



Lemma tokens_join (ws : list bytes) :
  Forall (fun w => word w = true) ws -> tokens CSV_DELIM (join ws) = ws.
Proof.
  induction 1 as [|w ws Hw Hws IH]; [reflexivity|].
  pose proof (word_spec w Hw) as [Hne _]. pose proof (word_free w Hw) as Hfree.
  cbn [join]. destruct ws as [|w' ws'].
  - apply tokens_free; assumption.
  - change (CSV_DELIM ++ ?x) with (","%char :: " "%char :: x).
    rewrite tokens_free_delim by (assumption || reflexivity).
    rewrite tokens_delim by reflexivity.
    rewrite IH. reflexivity.
Qed.




(** ** When the block of [trimToken] holds the trimmed string *)

Lemma block_string_app_inv (s : bytes) (x : ascii) (r : bytes) :
  block_string (s ++ x :: r) = Some s -> is_nul x = true.
Proof.
  induction s as [|c s IH]; cbn [app block_string].
  - destruct (is_nul x); [reflexivity|].
    destruct (block_string r); discriminate.
  - destruct (is_nul c); [discriminate|].
    destruct (block_string (s ++ x :: r)) as [s'|] eqn:E; [|discriminate].
    intros H. inversion H. subst s'. apply IH. reflexivity.
Qed.

Lemma skipn_fresh (h : heap) (k n len : nat) :
  1 <= n -> n <= len ->
  skipn n (NUL :: map (h k) (seq 1 len)) =
  h k n :: map (h k) (seq (S n) (len - n)).
Proof.
  intros H1 Hn. destruct n as [|n]; [lia|]. cbn [skipn].
  rewrite skipn_map, skipn_seq.
  replace (len - n) with (S (len - S n)) by lia.
  replace (1 + n) with (S n) by lia. reflexivity.
Qed.

(** X12.  The block [trimToken] returns reads as the string of the
    alphanumeric characters of the token exactly when the token has none
    (the NUL written at index 0 is still there), or when the byte after
    the copied characters was already NUL in the fresh block.  The
    function never writes that byte. *)
Theorem trimToken_string_iff (h : heap) (k : nat) (token : bytes) :
  exists blk,
    trimToken h k token = Ok blk /\
    (block_string blk = Some (alnums token) <->
     alnums token = [] \/ h k (length (alnums token)) = NUL).
Proof.
  eexists. split; [apply trimToken_spec|].
  pose proof (alnums_length token) as Hlen.
  destruct (alnums token) as [|c a] eqn:E.
  - cbn [length skipn app block_string]. change (is_nul NUL) with true.
    split; [intros _; left; reflexivity|reflexivity].
  - rewrite skipn_fresh by (cbn [length] in *; lia).
    assert (Hs : Forall (fun x => is_nul x = false) (c :: a))
      by (rewrite <- E; apply alnums_no_nul).
    split.
    + intros H. right. apply block_string_app_inv in H.
      unfold is_nul in H. apply Ascii.eqb_eq in H. exact H.
    + intros [H|H]; [discriminate|]. rewrite H.
      apply block_string_app. exact Hs.
Qed.

(** X17.  With zero-filled fresh memory [trimToken] is idempotent: the
    block it returns for a token holds a string, and [trimToken] applied
    to that string returns a block that holds the same string. *)
Theorem trimToken_idempotent_zero_filled (h : heap) (k k' : nat) (token : bytes) :
  zero_filled h ->
  exists blk s blk',
    trimToken h k token = Ok blk /\
    block_string blk = Some s /\
    trimToken h k' s = Ok blk' /\
    block_string blk' = Some s.
Proof.
  intros Hz.
  destruct (trimToken_zero_string h k token Hz) as [blk [E1 E2]].
  destruct (trimToken_zero_string h k' (alnums token) Hz) as [blk' [E3 E4]].
  exists blk, (alnums token), blk'. repeat split; try assumption.
  rewrite E4, alnums_idempotent. reflexivity.
Qed.

Lemma trimToken_idempotent_zero_filled_witness :
  exists blk s blk',
    trimToken zero_heap 0 (str "a!b?") = Ok blk /\
    block_string blk = Some s /\
    trimToken zero_heap 1 s = Ok blk' /\
    block_string blk' = Some s.
Proof.
  apply (trimToken_idempotent_zero_filled zero_heap 0 1 (str "a!b?")).
  intros k i. reflexivity.
Defined.

(** ** [loadCsv] and [createDataFrame] *)

(** X13.  A table returned by [loadCsv] is the structure returned by
    [createDataFrame] for the same file and memory, with the matrix added
    and the content of [params] changed: the dimensions, the separator and
    the size of [params] are those of [createDataFrame]. *)
Theorem loadCsv_extends_createDataFrame (filePtr filePtr' : option FILE)
  (h : heap) (fs : file_system) (df : csvData_t) :
  loadCsv filePtr h fs = Ok df ->
  exists df0,
    createDataFrame filePtr' h fs = Ok df0 /\
    rows df = rows df0 /\ cols df = cols df0 /\ delim df = delim df0 /\
    length (params df) = length (params df0) /\
    dataFrame df0 = None /\ dataFrame df <> None.
Proof.
  intros H. destruct (fs CSV_PATH) as [content|] eqn:Hfs.
  - rewrite (loadCsv_spec filePtr h fs content Hfs) in H.
    rewrite (createDataFrame_spec filePtr' h fs content Hfs).
    eexists. split; [reflexivity|]. cbn [rows cols delim params dataFrame].
    destruct (lines content) as [|l0 ls]; [discriminate|].
    cbv zeta in H.
    apply bind_Ok in H. destruct H as [p [Hp H]].
    apply bind_Ok in H. destruct H as [frame [Hf H]].
    inversion H. subst df. cbn [dataFrame rows cols params delim].
    destruct (fresh_params_shape h (Z.to_nat (snd (dimensions content))))
      as [Hl0 Hn0].
    destruct (store_labels_Ok _ _ _ _ _ Hn0 Hp) as [Hl Hn].
    repeat split; try assumption. discriminate.
  - rewrite (loadCsv_no_file filePtr h fs Hfs) in H. discriminate.
Qed.

Lemma loadCsv_extends_createDataFrame_witness :
  exists df0,
    createDataFrame (Some []) zero_heap (only abc_file) = Ok df0 /\
    2%Z = rows df0 /\ 3%Z = cols df0 /\
    strncpy CSV_DELIM SIZEOF_CHAR_PTR = delim df0 /\
    length (str "abc" ++ [NUL]) = length (params df0) /\
    dataFrame df0 = None /\ Some abc_cells <> None.
Proof.
  apply (loadCsv_extends_createDataFrame None (Some []) zero_heap (only abc_file)
           (mkData (strncpy CSV_DELIM SIZEOF_CHAR_PTR) 2 3 (str "abc" ++ [NUL])
              (Some abc_cells))).
  reflexivity.
Defined.

(** ** Empty fields *)




